(** * Discount rates and district-heating shares of PyPSA-Eur

    A shallow embedding of [scripts/_helpers_discount_rates.py] and of the
    projection block of [scripts/build_district_heat_share.py], followed by
    the properties of the two components.

    Conventions of the embedding.
    - A Python [float] is a real number of [R], which is exact up to the
      rounding of the last digits; where the rounding decides the outcome
      (the annuity factor at rates next to zero) the function is read a
      second time over binary64.  In the real reading, Python's own float
      operators raise on a zero divisor ([ZeroDivisionError]); they are the
      fallible [float_div] and [float_pow] below.  pandas arithmetic on a
      [Series] never raises, it is the total arithmetic of [R]; where pandas
      yields an infinity or a missing value (a zero divisor) [R] has no
      counterpart, and the model speaks for the tables without one.
    - A [dict] with string keys is a [gmap string _]; a key that the
      configuration omits is [None].
    - A pandas table is column-major: a list of row labels and a finite map
      from column names to typed columns.
    - A function that logs, mutates a caller-owned table or raises is a
      computation of the monad [M]: it takes the mutable object it works on
      and returns the outcome, the object as it is left behind (also when
      the call raises) and the log records it emitted. *)

From Stdlib Require Import Reals Lra Lia ZArith PrimFloat.
From stdpp Require Import base option gmap strings list.

Open Scope R_scope.

#[global] Instance R_eq_dec : EqDecision R := Req_dec_T.
#[global] Instance Rlt_decision (x y : R) : Decision (x < y) := Rlt_dec x y.
#[global] Instance Rgt_decision (x y : R) : Decision (x > y) := Rgt_dec x y.

(** ** Exceptions, log records and the monad *)

Inductive exn : Type :=
| ZeroDivisionError
| TypeError
| KeyError
| AttributeError
| ValueError
| IndexError
| ComplexValue.  (* no exception: Python leaves the floats for a complex *)

Inductive result (A : Type) : Type :=
| Ok (a : A)
| Raise (e : exn).
Arguments Ok {A} a.
Arguments Raise {A} e.

(** A cell of a table. *)
Inductive scalar : Type :=
| SNum (x : R)
| SStr (s : string).

(** What [series.loc[idx]] evaluates to: the cell of the one row labelled
    [idx], or a sub-series when several rows carry the label. *)
Inductive loc_result : Type :=
| LScalar (v : scalar)
| LSeries (vs : list scalar).

(** One constructor per logging call of the two scripts, holding the values
    the message is formatted from. *)
Inductive log_event : Type :=
| DebugCountryRate (country_code : string) (rate : R)
| DebugGlobalRate (country_code : string) (rate : R)
| WarnDefaultRate (country_code : string) (rate : R)
| InfoApplying
| InfoNoCountryRates
| InfoAppliedTotal (total_adjustments : nat)
| InfoNoAdjustments
| InfoAppliedKind (n : nat) (component_name : string)
| DebugSample (comp_id : string) (country : loc_result) (rate factor : R)
| DebugMore (n : nat)
| WarnDefaultPotential (default_value : R)
| InfoProgress (progress mean : R).

Definition M (St A : Type) : Type := St -> result A * St * list log_event.

#[global] Instance M_ret {St} : MRet (M St) := fun A a st => (Ok a, st, []).

#[global] Instance M_bind {St} : MBind (M St) := fun A B k m st =>
  match m st with
  | (Ok a, st', l) =>
      match k a st' with
      | (r, st'', l') => (r, st'', l ++ l')
      end
  | (Raise e, st', l) => (Raise e, st', l)
  end.

#[global] Instance result_ret : MRet result := fun A a => Ok a.

#[global] Instance result_bind : MBind result := fun A B k r =>
  match r with
  | Ok a => k a
  | Raise e => Raise e
  end.

Definition lift {St A} (r : result A) : M St A := fun st => (r, st, []).
Definition log {St} (ev : log_event) : M St unit := fun st => (Ok tt, st, [ev]).
Definition log_all {St} (evs : list log_event) : M St unit :=
  fun st => (Ok tt, st, evs).
Definition get_state {St} : M St St := fun st => (Ok st, st, []).
Definition modify {St} (f : St -> St) : M St unit := fun st => (Ok tt, f st, []).

(** [for x in xs: acc = body(acc, x)] *)
Fixpoint for_each {St A X} (body : A -> X -> M St A) (acc : A) (xs : list X)
  : M St A :=
  match xs with
  | [] => mret acc
  | x :: xs' => acc' ← body acc x; for_each body acc' xs'
  end.

(** Run a computation on one part of the state (a table held by a larger
    object), writing the part back whatever the outcome. *)
Definition zoom {St Part A} (getp : St -> Part) (setp : Part -> St -> St)
    (m : M Part A) : M St A :=
  fun st =>
    match m (getp st) with
    | (r, p', l) => (r, setp p' st, l)
    end.

(** ** Python floats and dicts *)

Definition float_div (a b : R) : result R :=
  if decide (b = 0) then Raise ZeroDivisionError else Ok (a / b).

(** [x ** y] on floats.  A positive base has the real power; zero raised to
    a negative power raises; a negative base has a float power only for an
    integral exponent, and a complex one otherwise. *)
Definition float_pow (x y : R) : result R :=
  if decide (0 < x) then Ok (Rpower x y)
  else if decide (x = 0) then
    if decide (y < 0) then Raise ZeroDivisionError
    else if decide (y = 0) then Ok 1 else Ok 0
  else if decide (y = IZR (Int_part y)) then Ok (powerRZ x (Int_part y))
  else Raise ComplexValue.

(** [d[k]] *)
Definition dict_getitem {V} (d : gmap string V) (k : string) : result V :=
  match d !! k with
  | Some v => Ok v
  | None => Raise KeyError
  end.

(** [xs[i]] *)
Definition list_getitem {A} (xs : list A) (i : nat) : result A :=
  match xs !! i with
  | Some x => Ok x
  | None => Raise IndexError
  end.

(** ** Tables *)

Inductive column : Type :=
| NumCol (xs : list R)
| StrCol (xs : list string).

Record DataFrame (I : Type) : Type := mkDataFrame {
  df_index : list I;
  df_columns : gmap string column;
}.
Arguments mkDataFrame {I} _ _.
Arguments df_index {I} _.
Arguments df_columns {I} _.

Definition col_length (c : column) : nat :=
  match c with
  | NumCol xs => length xs
  | StrCol xs => length xs
  end.

Definition col_scalars (c : column) : list scalar :=
  match c with
  | NumCol xs => SNum <$> xs
  | StrCol xs => SStr <$> xs
  end.

(** [len(df)] *)
Definition df_len {I} (df : DataFrame I) : nat := length (df_index df).

(** [df.empty]: some axis has length zero. *)
Definition df_empty {I} (df : DataFrame I) : bool :=
  match df_index df with
  | [] => true
  | _ :: _ => bool_decide (dom (df_columns df) = ∅)
  end.

(** [name in df.columns] *)
Definition has_column {I} (df : DataFrame I) (name : string) : bool :=
  bool_decide (is_Some (df_columns df !! name)).

(** [df[name] = value] for a scalar [value]: the column is created or
    replaced, one copy of the value per row. *)
Definition set_column_scalar {I} (name : string) (value : scalar)
    (df : DataFrame I) : DataFrame I :=
  let n := df_len df in
  let col := match value with
             | SNum x => NumCol (replicate n x)
             | SStr s => StrCol (replicate n s)
             end in
  mkDataFrame (df_index df) (<[name := col]> (df_columns df)).

(** Every column has one cell per row. *)
Definition df_wf {I} (df : DataFrame I) : Prop :=
  forall name c, df_columns df !! name = Some c -> col_length c = df_len df.

(** ** [_helpers_discount_rates.py] *)

(** The costs configuration: [None] is a key the configuration omits. *)
Record costs_config : Type := mkCostsConfig {
  country_specific_discountrate : option (gmap string R);
  social_discountrate : option R;
}.

Definition get_country_discount_rate {St} (country_code : string)
    (costs_config : costs_config) : M St R :=
  let country_rates := default ∅ (country_specific_discountrate costs_config) in
  if decide (is_Some (country_rates !! country_code)) then
    rate ← lift (dict_getitem country_rates country_code);
    log (DebugCountryRate country_code rate);;
    mret rate
  else
    let global_rate := social_discountrate costs_config in
    match global_rate with
    | Some rate =>
        log (DebugGlobalRate country_code rate);;
        mret rate
    | None =>
        let rate := 0.07 in
        log (WarnDefaultRate country_code rate);;
        mret rate
    end.

Definition calculate_annuity_simple (lifetime discount_rate : R) : result R :=
  if decide (discount_rate = 0) then float_div 1 lifetime
  else
    p ← float_pow (1 + discount_rate) (- lifetime);
    float_div discount_rate (1 - p).

(** *** Country-specific cost expansion *)

Definition col_app (a b : column) : option column :=
  match a, b with
  | NumCol xs, NumCol ys => Some (NumCol (xs ++ ys))
  | StrCol xs, StrCol ys => Some (StrCol (xs ++ ys))
  | _, _ => None
  end.

(** [pd.concat(objs, keys=keys)]: the rows of the tables one after the
    other, each label prefixed by the key of its table.  The call site only
    concatenates copies of one table in which the same two columns were
    overwritten, so all tables have the same columns with the same types;
    what pandas does with a column that some table lacks is not reachable
    from there and is not modelled (such a column is dropped). *)
Definition pd_concat (objs : list (DataFrame string)) (keys : list string)
  : result (DataFrame (string * string)) :=
  match objs with
  | [] => Raise ValueError
  | o :: os =>
      Ok (mkDataFrame
            (concat (zip_with (fun k obj => pair k <$> df_index obj) keys objs))
            (foldl (fun acc obj => intersection_with col_app acc (df_columns obj))
                   (df_columns o) os))
  end.

(** What the function returns: the caller's own table (the same object) or
    a table built by the call. *)
Inductive costs_result : Type :=
| SameTable
| NewTable (expanded_costs : DataFrame (string * string)).

(** The body of [for country in countries]; the state is the caller's
    [costs] table, which the body copies. *)
Definition expand_country (costs_config : costs_config)
    (country_costs : list (DataFrame string)) (country : string)
  : M (DataFrame string) (list (DataFrame string)) :=
  costs ← get_state;
  let country_df := costs in
  rate ← get_country_discount_rate country costs_config;
  let country_df := set_column_scalar "discount rate" (SNum rate) country_df in
  let country_df := set_column_scalar "country" (SStr country) country_df in
  mret (country_costs ++ [country_df]).

(** The state is the caller's [costs] table. *)
Definition apply_country_specific_costs (countries : list string)
    (costs_config : costs_config) : M (DataFrame string) costs_result :=
  if decide (1 < length countries)%nat then
    country_costs ← for_each (expand_country costs_config) [] countries;
    expanded_costs ← lift (pd_concat country_costs countries);
    mret (NewTable expanded_costs)
  else
    country ← lift (list_getitem countries 0);
    rate ← get_country_discount_rate country costs_config;
    modify (set_column_scalar "discount rate" (SNum rate));;
    mret SameTable.

(** *** Capital-cost adjustment of the network components *)

(** [countries]: a [Series] carrying the row labels of the component table
    (from the [bus] or the [country] column), or the bare [Index] of
    two-character prefixes. *)
Inductive countries_t : Type :=
| CSeries (labels : list string) (values : column)
| CIndex (values : list string).

(** [series.str[:2]]; the accessor exists for string columns only. *)
Definition str_slice2 (c : column) : result column :=
  match c with
  | StrCol xs => Ok (StrCol (String.substring 0 2 <$> xs))
  | NumCol _ => Raise AttributeError
  end.

Definition series_loc (labels : list string) (values : column) (idx : string)
  : result loc_result :=
  match (filter (fun lv => lv.1 = idx) (zip labels (col_scalars values))).*2 with
  | [] => Raise KeyError
  | [v] => Ok (LScalar v)
  | vs => Ok (LSeries vs)
  end.

(** The three-way lookup at the head of the loop body: a [Series] has
    [loc], an [Index] has neither [loc] nor [iloc] and is read by position. *)
Definition row_country (countries : countries_t) (i : nat) (idx : string)
  : result loc_result :=
  match countries with
  | CSeries labels values => series_loc labels values idx
  | CIndex values => v ← list_getitem values i; mret (LScalar (SStr v))
  end.

(** [country in country_rates]: a sub-series cannot be hashed, a float is
    hashed but equals no string key. *)
Definition dict_contains (country_rates : gmap string R) (country : loc_result)
  : result bool :=
  match country with
  | LScalar (SStr s) => Ok (bool_decide (is_Some (country_rates !! s)))
  | LScalar (SNum _) => Ok false
  | LSeries _ => Raise TypeError
  end.

(** [country_rates[country]] *)
Definition dict_getitem_at (country_rates : gmap string R) (country : loc_result)
  : result R :=
  match country with
  | LScalar (SStr s) => dict_getitem country_rates s
  | LScalar (SNum _) => Raise KeyError
  | LSeries _ => Raise TypeError
  end.

(** [component.loc[idx, name] *= factor]: every row labelled [idx] is
    read, multiplied and written back. *)
Definition loc_imul (idx name : string) (factor : R) : M (DataFrame string) unit :=
  component ← get_state;
  match df_columns component !! name with
  | Some (NumCol xs) =>
      modify (fun df =>
        mkDataFrame (df_index df)
          (<[name := NumCol (zip_with
                       (fun l x => if decide (l = idx) then x * factor else x)
                       (df_index df) xs)]> (df_columns df)))
  | Some (StrCol _) => lift (Raise TypeError)
  | None => lift (Raise KeyError)
  end.

(** [enumerate(xs)] *)
Definition enumerate {A} (xs : list A) : list (nat * A) :=
  zip (seq 0 (length xs)) xs.

(** An entry of [changed_components]. *)
Definition changed_entry : Type := string * loc_result * R * R.

(** One iteration of the loop over [enumerate(component.index)]. *)
Definition adjust_row (countries : countries_t) (country_rates : gmap string R)
    (global_rate : R) (changed_components : list changed_entry)
    (row : nat * string) : M (DataFrame string) (list changed_entry) :=
  let '(i, idx) := row in
  country ← lift (row_country countries i idx);
  known ← lift (dict_contains country_rates country);
  if (known : bool) then
    country_rate ← lift (dict_getitem_at country_rates country);
    if decide (Rabs (country_rate - global_rate) > 0.001) then
      let default_lifetime := 25 in
      old_annuity ← lift (calculate_annuity_simple default_lifetime global_rate);
      new_annuity ← lift (calculate_annuity_simple default_lifetime country_rate);
      adjustment_factor ← lift (float_div new_annuity old_annuity);
      loc_imul idx "capital_cost" adjustment_factor;;
      mret (changed_components
              ++ [(idx, country, country_rate, adjustment_factor)])
    else mret changed_components
  else mret changed_components.

(** The log records written once the loop is over. *)
Definition log_changed (component_name : string)
    (changed_components : list changed_entry) : list log_event :=
  match changed_components with
  | [] => []
  | _ :: _ =>
      [InfoAppliedKind (length changed_components) component_name]
      ++ ((fun e : changed_entry =>
             let '(comp_id, country, rate, factor) := e in
             DebugSample comp_id country rate factor) <$> take 3 changed_components)
      ++ (if decide (3 < length changed_components)%nat
          then [DebugMore (length changed_components - 3)] else [])
  end.

(** The state is the component table, mutated in place. *)
Definition _apply_to_component_improved (component_name : string)
    (country_rates : gmap string R) (global_rate : R)
  : M (DataFrame string) nat :=
  component ← get_state;
  if df_empty component then mret 0%nat
  else
    countries ← lift (
      match df_columns component !! "bus" with
      | Some bus =>
          values ← str_slice2 bus; mret (CSeries (df_index component) values)
      | None =>
          match df_columns component !! "country" with
          | Some country => Ok (CSeries (df_index component) country)
          | None => Ok (CIndex (String.substring 0 2 <$> df_index component))
          end
      end);
    if negb (has_column component "capital_cost") then mret 0%nat
    else
      changed_components ←
        for_each (adjust_row countries country_rates global_rate) []
                 (enumerate (df_index component));
      log_all (log_changed component_name changed_components);;
      mret (length changed_components).

Record Network : Type := mkNetwork {
  generators : option (DataFrame string);
  storage_units : option (DataFrame string);
  stores : option (DataFrame string);
  links : option (DataFrame string);
}.

Inductive component_kind : Type := Generators | StorageUnits | Stores | Links.

#[global] Instance component_kind_eq_dec : EqDecision component_kind.
Proof. solve_decision. Defined.

Definition kind_name (k : component_kind) : string :=
  match k with
  | Generators => "generators"
  | StorageUnits => "storage_units"
  | Stores => "stores"
  | Links => "links"
  end.

(** [getattr(network, kind)]; [None] when the attribute is missing. *)
Definition get_component (k : component_kind) (network : Network)
  : option (DataFrame string) :=
  match k with
  | Generators => generators network
  | StorageUnits => storage_units network
  | Stores => stores network
  | Links => links network
  end.

Definition set_component (k : component_kind) (df : DataFrame string)
    (network : Network) : Network :=
  match k with
  | Generators => mkNetwork (Some df) (storage_units network) (stores network) (links network)
  | StorageUnits => mkNetwork (generators network) (Some df) (stores network) (links network)
  | Stores => mkNetwork (generators network) (storage_units network) (Some df) (links network)
  | Links => mkNetwork (generators network) (storage_units network) (stores network) (Some df)
  end.

(** [hasattr(network, kind) and not network.<kind>.empty] *)
Definition to_process (network : Network) (k : component_kind) : bool :=
  match get_component k network with
  | Some df => negb (df_empty df)
  | None => false
  end.

(** The value of a Python call: [None] or an [int]. *)
Inductive pyvalue : Type :=
| PyNone
| PyInt (n : nat).

(** The body of [for component_name, component in components_to_process];
    [component] is the table the network holds for the kind. *)
Definition adjust_kind (country_rates : gmap string R) (global_rate : R)
    (total_adjustments : nat) (k : component_kind) : M Network nat :=
  adjustments ← zoom (fun n => default (mkDataFrame [] ∅) (get_component k n))
                     (set_component k)
                     (_apply_to_component_improved (kind_name k)
                        country_rates global_rate);
  mret (total_adjustments + adjustments)%nat.

(** The state is the network, whose component tables are mutated in place. *)
Definition apply_country_discount_rates_to_network (costs_config : costs_config)
  : M Network pyvalue :=
  log InfoApplying;;
  let country_rates := default ∅ (country_specific_discountrate costs_config) in
  global_rate ← lift (match social_discountrate costs_config with
                      | Some g => Ok g
                      | None => Raise KeyError
                      end);
  if decide (country_rates = ∅) then
    log InfoNoCountryRates;;
    mret PyNone
  else
    network ← get_state;
    let components_to_process :=
      filter (fun k => to_process network k = true)
             [Generators; StorageUnits; Stores; Links] in
    total_adjustments ← for_each (adjust_kind country_rates global_rate)
                                 0%nat components_to_process;
    (if decide (0 < total_adjustments)%nat
     then log (InfoAppliedTotal total_adjustments)
     else log InfoNoAdjustments);;
    mret PyNone.

(** ** [build_district_heat_share.py] *)

(** A row of the population layout, labelled by its node. *)
Record pop_row : Type := mkPopRow {
  node : string;
  ct : string;
  urban : R;
  rural : R;
  fraction : R;
}.

(** [sector.district_heating.potential]: a number or a mapping. *)
Inductive potential : Type :=
| PotentialScalar (x : R)
| PotentialDict (d : gmap string R).

(** [central_fraction] after the resolution: still the number, or a
    [Series] over the nodes. *)
Inductive central_fraction_t : Type :=
| CFScalar (x : R)
| CFSeries (xs : list R).

(** [series.reindex(labels).fillna(0)] *)
Definition reindex_fillna0 (series : gmap string R) (labels : list string)
  : list R :=
  (fun l => default 0 (series !! l)) <$> labels.

(** [values.groupby(keys).sum()] *)
Definition groupby_sum (keys : list string) (values : list R) : gmap string R :=
  foldr (fun kv acc => <[kv.1 := kv.2 + default 0 (acc !! kv.1)]> acc)
        ∅ (zip keys values).

(** [keys.map(mapping)] and [keys.map(mapping.get)].  pandas fills a key
    the mapping lacks with a missing value; at both call sites every key is
    in the mapping ([ct_urban_lookup], [central_fraction_covers]) and the
    filler is never taken. *)
Definition series_map (mapping : gmap string R) (keys : list string) : list R :=
  (fun k => default 0 (mapping !! k)) <$> keys.

(** [urban_fraction * central_fraction] *)
Definition mul_central (xs : list R) (central_fraction : central_fraction_t)
  : list R :=
  match central_fraction with
  | CFScalar c => (fun x => x * c) <$> xs
  | CFSeries cs => zip_with Rmult xs cs
  end.

(** [series.clip(lower=lo)] *)
Definition clip_lower (lo : R) (xs : list R) : list R := Rmax lo <$> xs.

(** [series.mean()] *)
Definition mean (xs : list R) : R := foldr Rplus 0 xs / INR (length xs).

(** [set(pop_layout.ct.unique()).difference(central_fraction.keys())] *)
Definition uncovered_countries (pop_layout : list pop_row)
    (central_fraction : gmap string R) : gset string :=
  list_to_set (ct <$> pop_layout) ∖ dom central_fraction.

(** Lines 68-91: the potential ceiling of every node. *)
Definition resolve_central_fraction {St} (pop_layout : list pop_row)
    (potential : potential) : M St central_fraction_t :=
  match potential with
  | PotentialScalar central_fraction => mret (CFScalar central_fraction)
  | PotentialDict central_fraction =>
      let other_countries := uncovered_countries pop_layout central_fraction in
      central_fraction ←
        (if decide (other_countries = ∅) then mret central_fraction
         else
           match central_fraction !! "default" with
           | None => lift (Raise ValueError)
           | Some default_value =>
               log (WarnDefaultPotential default_value);;
               mret (gset_to_gmap default_value other_countries
                       ∪ central_fraction)
           end);
      mret (CFSeries (series_map central_fraction (ct <$> pop_layout)))
  end.

Section Projection.

(** [get] of [scripts.prepare_sector_network] looks the progress of a year
    up in the configured schedule; the helper is outside these two files
    and is a parameter of the projection. *)
Context {Schedule : Type} (get : Schedule -> Z -> R).

(** Lines 55-120: from the loaded tables to the table that is written. *)
Definition build_district_heat_share {St} (pop_layout : list pop_row)
    (district_heat_share : gmap string R) (potential : potential)
    (progress_config : Schedule) (investment_year : Z)
  : M St (DataFrame string) :=
  let district_heat_share :=
    reindex_fillna0 district_heat_share (ct <$> pop_layout) in
  let ct_urban := groupby_sum (ct <$> pop_layout) (urban <$> pop_layout) in
  let urban_ct_fraction :=
    zip_with Rdiv (urban <$> pop_layout)
                  (series_map ct_urban (ct <$> pop_layout)) in
  let urban_fraction :=
    zip_with Rdiv (urban <$> pop_layout)
                  (zip_with Rplus (rural <$> pop_layout) (urban <$> pop_layout)) in
  central_fraction ← resolve_central_fraction pop_layout potential;
  let dist_fraction_node :=
    zip_with Rdiv (zip_with Rmult district_heat_share urban_ct_fraction)
                  (fraction <$> pop_layout) in
  let urban_fraction := zip_with Rmax urban_fraction dist_fraction_node in
  let diff :=
    clip_lower 0 (zip_with Rminus (mul_central urban_fraction central_fraction)
                                  dist_fraction_node) in
  let progress := get progress_config investment_year in
  let dist_fraction_node :=
    zip_with Rplus dist_fraction_node ((fun d => d * progress) <$> diff) in
  log (InfoProgress progress (mean dist_fraction_node));;
  mret (mkDataFrame (node <$> pop_layout)
          (<["original district heat share" := NumCol district_heat_share]>
             (<["district fraction of node" := NumCol dist_fraction_node]>
                {["urban fraction" := NumCol urban_fraction]}))).

End Projection.

(** [df[name].iloc[i]] of a float column *)
Definition num_at {I} (df : DataFrame I) (name : string) (i : nat) : option R :=
  match df_columns df !! name with
  | Some (NumCol xs) => xs !! i
  | _ => None
  end.

(** [df[name].iloc[i]] of a string column *)
Definition str_at {I} (df : DataFrame I) (name : string) (i : nat)
  : option string :=
  match df_columns df !! name with
  | Some (StrCol xs) => xs !! i
  | _ => None
  end.

(** ** The batch resolvers of [_helpers_discount_rates.py] *)

(** A Python [dict], which keeps its keys in the order of their first
    insertion, and the [Series] that [pd.Series(d)] builds from it: the
    pairs of key and value in that order. *)
Definition ordered_dict (V : Type) : Type := list (string * V).

(** [d[k] = v]: an existing key keeps its place and takes the new value, a
    new key goes to the end. *)
Definition dict_setitem {V} (k : string) (v : V) (d : ordered_dict V)
  : ordered_dict V :=
  if decide (k ∈ d.*1)
  then (fun kv : string * V => if decide (kv.1 = k) then (k, v) else kv) <$> d
  else d ++ [(k, v)].

(** The body of [for country in countries]. *)
Definition series_step {St} (costs_config : costs_config)
    (discount_rates : ordered_dict R) (country : string)
  : M St (ordered_dict R) :=
  rate ← get_country_discount_rate country costs_config;
  mret (dict_setitem country rate discount_rates).

Definition get_country_discount_rates_series {St} (countries : list string)
    (costs_config : costs_config) : M St (ordered_dict R) :=
  let discount_rates : ordered_dict R := [] in
  discount_rates ← for_each (series_step costs_config) discount_rates countries;
  mret discount_rates.

(** The buses of a network: the bus names and, when the table has the
    column, the country code of every bus. *)
Record bus_table : Type := mkBusTable {
  bus_index : list string;
  bus_country : option (list string);
}.

(** The body of [for bus_id, country in countries.items()]. *)
Definition nodal_step {St} (costs_config : costs_config)
    (discount_rates : ordered_dict R) (item : string * string)
  : M St (ordered_dict R) :=
  let '(bus_id, country) := item in
  rate ← get_country_discount_rate country costs_config;
  mret (dict_setitem bus_id rate discount_rates).

(** With a [country] column, [countries] is that [Series] and [items()]
    pairs every bus name with its country.  Without it, [countries] is the
    [Index] of two-character prefixes of the bus names, and an [Index] has
    no [items] method. *)
Definition get_nodal_discount_rates {St} (network_buses : bus_table)
    (costs_config : costs_config) : M St (ordered_dict R) :=
  match bus_country network_buses with
  | Some country =>
      let countries := zip (bus_index network_buses) country in
      let discount_rates : ordered_dict R := [] in
      discount_rates ← for_each (nodal_step costs_config) discount_rates
                                countries;
      mret discount_rates
  | None =>
      let countries := String.substring 0 2 <$> bus_index network_buses in
      lift (Raise AttributeError)
  end.

(** ** The annuity factor in double precision

    [calculate_annuity_simple] read over binary64, the floats Python
    computes with.  [x ** y] is CPython's [float_pow]: it returns 1.0 for
    an exponent of zero and for a base of exactly 1.0, whatever the other
    operand; its other cases lie outside the repository and are the
    parameter [pow_other]. *)
Section Binary64.

Variable pow_other : float -> float -> result float.

Definition float_pow64 (x y : float) : result float :=
  if (y =? 0)%float then Ok 1%float
  else if (x =? 1)%float then Ok 1%float
  else pow_other x y.

Definition float_div64 (a b : float) : result float :=
  if (b =? 0)%float then Raise ZeroDivisionError else Ok (a / b)%float.

Definition calculate_annuity_simple64 (lifetime discount_rate : float)
  : result float :=
  if (discount_rate =? 0)%float then float_div64 1 lifetime
  else
    p ← float_pow64 (1 + discount_rate) (- lifetime);
    float_div64 discount_rate (1 - p).

End Binary64.

(** The double nearest to 1e-16, the value of Python's literal [1e-16]. *)
Definition tiny_rate : float := 0x1.cd2b297d889bcp-54%float.

(** ** Definitions that follow the specification's words

    They are compared with the code in the theorems below. *)

(** [resolve(c, table, g)]: the country's entry, else the global rate, else
    0.07. *)
Definition resolve (c : string) (table : gmap string R) (g : option R) : R :=
  match table !! c with
  | Some r => r
  | None =>
      match g with
      | Some g => g
      | None => 0.07
      end
  end.

(** The resolved rate of a country under a costs configuration. *)
Definition resolved_rate (cfg : costs_config) (c : string) : R :=
  resolve c (default ∅ (country_specific_discountrate cfg))
          (social_discountrate cfg).

(** The copy of the cost table made for one country. *)
Definition country_table (costs : DataFrame string) (cfg : costs_config)
    (c : string) : DataFrame string :=
  set_column_scalar "country" (SStr c)
    (set_column_scalar "discount rate" (SNum (resolved_rate cfg c)) costs).

(** The annuity factor [r / (1 - (1+r)^(-L))], and [1/L] at rate zero. *)
Definition annuity (L r : R) : R :=
  if decide (r = 0) then 1 / L else r / (1 - Rpower (1 + r) (- L)).

(** The country the adjuster derives for each row, in the order of the
    rows: the first two characters of [bus]; else the [country] column;
    else the first two characters of the row's own label. *)
Definition derived_countries (component : DataFrame string)
  : option (list scalar) :=
  match df_columns component !! "bus" with
  | Some (StrCol xs) => Some ((fun s => SStr (String.substring 0 2 s)) <$> xs)
  | Some (NumCol _) => None
  | None =>
      match df_columns component !! "country" with
      | Some country => Some (col_scalars country)
      | None =>
          Some ((fun s => SStr (String.substring 0 2 s)) <$> df_index component)
      end
  end.

(** The country-specific rate of a derived country, if it has one. *)
Definition rate_of (country_rates : gmap string R) (c : scalar) : option R :=
  match c with
  | SStr s => country_rates !! s
  | SNum _ => None
  end.

(** The rate and the factor of a row of country [c] that is adjusted:
    [c] has a country-specific rate further than 0.001 from the global
    rate, the factor is the ratio of the annuities over 25 years. *)
Definition adjustment (country_rates : gmap string R) (global_rate : R)
    (c : scalar) : option (R * R) :=
  match c with
  | SStr s =>
      match country_rates !! s with
      | Some r =>
          if decide (Rabs (r - global_rate) > 0.001)
          then Some (r, annuity 25 r / annuity 25 global_rate)
          else None
      | None => None
      end
  | SNum _ => None
  end.

(** [capital_cost] of a row after the adjustment. *)
Definition adjusted_cost (country_rates : gmap string R) (global_rate : R)
    (c : scalar) (x : R) : R :=
  match adjustment country_rates global_rate c with
  | Some (_, factor) => x * factor
  | None => x
  end.

(** The rows that are adjusted, as the loop records them. *)
Definition changed_entries (country_rates : gmap string R) (global_rate : R)
    (rows : list (string * scalar)) : list changed_entry :=
  omap (fun row : string * scalar =>
          match adjustment country_rates global_rate row.2 with
          | Some (r, factor) => Some (row.1, LScalar row.2, r, factor)
          | None => None
          end) rows.

(** The component table after the adjustment of its rows. *)
Definition adjusted_component (country_rates : gmap string R) (global_rate : R)
    (component : DataFrame string) : DataFrame string :=
  match df_columns component !! "capital_cost", derived_countries component with
  | Some (NumCol xs), Some cs =>
      mkDataFrame (df_index component)
        (<["capital_cost" :=
             NumCol (zip_with (adjusted_cost country_rates global_rate) cs xs)]>
           (df_columns component))
  | _, _ => component
  end.

(** The number of rows that are adjusted. *)
Definition adjusted_count (country_rates : gmap string R) (global_rate : R)
    (component : DataFrame string) : nat :=
  match df_columns component !! "capital_cost", derived_countries component with
  | Some (NumCol xs), Some cs =>
      length (changed_entries country_rates global_rate
                (zip (df_index component) cs))
  | _, _ => 0%nat
  end.

(** A component table as the network holds it: unique row labels, one cell
    per row in every column, text in [bus], numbers in [capital_cost]. *)
Definition component_ok (component : DataFrame string) : Prop :=
  NoDup (df_index component)
  /\ df_wf component
  /\ (forall xs, df_columns component !! "bus" <> Some (NumCol xs))
  /\ (forall xs, df_columns component !! "capital_cost" <> Some (StrCol xs)).

(** Rates above -1 (the configured rates are fractions, not below 0). *)
Definition rates_ok (country_rates : gmap string R) (global_rate : R) : Prop :=
  -1 < global_rate
  /\ forall c r, country_rates !! c = Some r -> -1 < r.

(** What a call may change in a table: nothing but the cells of
    [capital_cost]. *)
Definition only_capital_cost (before after : DataFrame string) : Prop :=
  df_index after = df_index before
  /\ dom (df_columns after) = dom (df_columns before)
  /\ forall name, name <> "capital_cost"%string ->
       df_columns after !! name = df_columns before !! name.

(** The cells of [countries] in the order of the rows, and the labels a
    [Series] of countries carries. *)
Definition country_cells (countries : countries_t) : list scalar :=
  match countries with
  | CSeries _ values => col_scalars values
  | CIndex values => SStr <$> values
  end.

Definition country_labels_are (countries : countries_t) (labels : list string)
  : Prop :=
  match countries with
  | CSeries labels' _ => labels' = labels
  | CIndex _ => True
  end.

(** The log records of the adjustment of one component table. *)
Definition adjustment_log (component_name : string)
    (country_rates : gmap string R) (global_rate : R)
    (component : DataFrame string) : list log_event :=
  match df_columns component !! "capital_cost", derived_countries component with
  | Some (NumCol xs), Some cs =>
      log_changed component_name
        (changed_entries country_rates global_rate
           (zip (df_index component) cs))
  | _, _ => []
  end.

(** The number of rows adjusted in the table of one component kind. *)
Definition kind_count (country_rates : gmap string R) (global_rate : R)
    (network : Network) (k : component_kind) : nat :=
  match get_component k network with
  | Some df => adjusted_count country_rates global_rate df
  | None => 0%nat
  end.

(** The projection of one node, in the words of the specification. *)

(** Total urban population of a country: the sum over its nodes. *)
Definition country_urban (pop_layout : list pop_row) (c : string) : R :=
  foldr Rplus 0 (urban <$> filter (fun r => ct r = c) pop_layout).

(** The historical share of the node's country, 0 for a country that the
    historical table lacks. *)
Definition node_share (historical : gmap string R) (r : pop_row) : R :=
  default 0 (historical !! ct r).

(** Node urban population over the country's total urban population. *)
Definition node_urban_ct_fraction (pop_layout : list pop_row) (r : pop_row)
  : R :=
  urban r / country_urban pop_layout (ct r).

(** Node urban population over node urban plus node rural population. *)
Definition node_urban_fraction (r : pop_row) : R :=
  urban r / (urban r + rural r).

(** Historical share times [urban_ct_fraction] over the node's
    [fraction]. *)
Definition node_dist_fraction (pop_layout : list pop_row)
    (historical : gmap string R) (r : pop_row) : R :=
  node_share historical r * node_urban_ct_fraction pop_layout r / fraction r.

(** The urban fraction raised to the district-heat share where that is
    larger. *)
Definition node_urban_final (pop_layout : list pop_row)
    (historical : gmap string R) (r : pop_row) : R :=
  Rmax (node_urban_fraction r) (node_dist_fraction pop_layout historical r).

(** The potential ceiling of the node's country: the number, or the
    country's entry of the mapping, or the mapping's [default]. *)
Definition node_ceiling (potential : potential) (r : pop_row) : R :=
  match potential with
  | PotentialScalar x => x
  | PotentialDict d =>
      match d !! ct r with
      | Some x => x
      | None => default 0 (d !! "default"%string)
      end
  end.

(** [diff]: the headroom below the ceiling, never negative. *)
Definition node_diff (pop_layout : list pop_row) (historical : gmap string R)
    (potential : potential) (r : pop_row) : R :=
  Rmax 0 (node_urban_final pop_layout historical r * node_ceiling potential r
          - node_dist_fraction pop_layout historical r).

(** The final projected share. *)
Definition node_projected (pop_layout : list pop_row)
    (historical : gmap string R) (potential : potential) (progress : R)
    (r : pop_row) : R :=
  node_dist_fraction pop_layout historical r
  + node_diff pop_layout historical potential r * progress.

(** The potential configuration covers the population layout: it is a
    number, or a mapping with a [default], or a mapping with an entry for
    every country of the layout. *)
Definition potential_covers (pop_layout : list pop_row) (potential : potential)
  : Prop :=
  match potential with
  | PotentialScalar _ => True
  | PotentialDict d =>
      is_Some (d !! "default"%string)
      \/ forall r, r ∈ pop_layout -> is_Some (d !! ct r)
  end.

(** The scenario of the specification: Germany in two nodes with urban
    population 60 and 40 and half of the population each, a historical
    share of 0.4, a potential of 0.5 and full progress. *)
Definition sample_pop_layout : list pop_row :=
  [mkPopRow "DE0" "DE" 60 40 0.5; mkPopRow "DE1" "DE" 40 60 0.5].

Definition sample_historical : gmap string R := {["DE"%string := 0.4]}.

(** The keys of a list in the order of their first occurrence. *)
Definition first_occurrences (keys : list string) : list string :=
  foldl (fun acc k => if decide (k ∈ acc) then acc else acc ++ [k]) [] keys.

(** [k] copies of a column, one after the other. *)
Definition col_repeat (k : nat) (c : column) : column :=
  match c with
  | NumCol xs => NumCol (concat (replicate k xs))
  | StrCol xs => StrCol (concat (replicate k xs))
  end.

(** Some row label occurs on two rows. *)
Definition has_duplicate (labels : list string) : Prop :=
  exists i j l, i <> j /\ labels !! i = Some l /\ labels !! j = Some l.

(** The population-weighted sum of a nodal series over the nodes of one
    country: each value times the node's [fraction] of the country's
    population. *)
Definition country_weighted_sum (pop_layout : list pop_row) (c : string)
    (xs : list R) : R :=
  foldr Rplus 0
    (zip_with (fun r x => if decide (ct r = c) then x * fraction r else 0)
              pop_layout xs).

(** ** Sample inputs *)

(** Two generators on buses of two countries, one of which has a
    country-specific rate away from the global one. *)
Definition sample_generators : DataFrame string :=
  mkDataFrame ["DE0 onwind"; "FR0 solar"]%string
    (<["bus"%string := StrCol ["DE0"; "FR0"]%string]>
       {["capital_cost"%string := NumCol [100; 80]]}).

Definition sample_rates : gmap string R := {["DE"%string := 0.1]}.

(** Five links without [bus] or [country] column, so that the country is
    the prefix of the label; four of them are in the country with a rate
    of its own. *)
Definition sample_links : DataFrame string :=
  mkDataFrame ["DE0 a"; "DE1 b"; "FR0 c"; "DE2 d"; "DE3 e"]%string
    {["capital_cost"%string := NumCol [10; 20; 30; 40; 50]]}.

Definition sample_config : costs_config :=
  mkCostsConfig (Some sample_rates) (Some 0.07).

Definition sample_network : Network :=
  mkNetwork (Some sample_generators) None None None.

(** * Properties *)

(** Unfolding of the monad's operations in a goal. *)
Ltac munfold :=
  unfold mbind, mret, M_bind, M_ret, result_bind, result_ret,
         lift, log, log_all, get_state, modify, zoom in *.

(** ** Discount-rate resolution *)

Lemma get_country_discount_rate_run {St} (c : string) (cfg : costs_config)
    (st : St) :
  let table := default ∅ (country_specific_discountrate cfg) in
  get_country_discount_rate c cfg st =
    match table !! c with
    | Some r => (Ok r, st, [DebugCountryRate c r])
    | None =>
        match social_discountrate cfg with
        | Some g => (Ok g, st, [DebugGlobalRate c g])
        | None => (Ok 0.07, st, [WarnDefaultRate c 0.07])
        end
    end.
Proof.
  intros table. unfold get_country_discount_rate. fold table.
  destruct (table !! c) as [r|] eqn:E.
  - rewrite decide_True by eauto. munfold. unfold dict_getitem.
    rewrite E. reflexivity.
  - rewrite decide_False by (intros [? ?]; congruence).
    destruct (social_discountrate cfg); reflexivity.
Qed.

Lemma get_country_discount_rate_resolve {St} (c : string) (cfg : costs_config)
    (st : St) :
  exists ev,
    get_country_discount_rate c cfg st =
      (Ok (resolve c (default ∅ (country_specific_discountrate cfg))
                   (social_discountrate cfg)), st, [ev]).
Proof.
  rewrite get_country_discount_rate_run. unfold resolve.
  destruct (_ !! c); [eauto|]. destruct (social_discountrate cfg); eauto.
Qed.

(** C1. The resolver is a total three-tier fallback: it returns the
    country's entry of the rate table when there is one, else the global
    rate when it is defined, else 0.07; it never raises, leaves the state
    alone and logs which tier it used. *)
Theorem get_country_discount_rate_three_tier {St} (c : string)
    (cfg : costs_config) (st : St) :
  let table := default ∅ (country_specific_discountrate cfg) in
  let g := social_discountrate cfg in
  get_country_discount_rate c cfg st =
    (Ok (resolve c table g), st,
     [match table !! c, g with
      | Some r, _ => DebugCountryRate c r
      | None, Some g => DebugGlobalRate c g
      | None, None => WarnDefaultRate c 0.07
      end])
  /\ resolve c table g =
       match table !! c, g with
       | Some r, _ => r
       | None, Some g => g
       | None, None => 0.07
       end.
Proof.
  intros table g. rewrite get_country_discount_rate_run.
  unfold resolve. fold table. fold g.
  destruct (table !! c); [done|]. destruct g; done.
Qed.

(** ** The annuity factor *)

Lemma Rpower_one (y : R) : Rpower 1 y = 1.
Proof. unfold Rpower. rewrite ln_1, Rmult_0_r. apply exp_0. Qed.

Lemma Rpower_neg_decr (q s t : R) :
  0 < q -> 0 < s -> s < t -> Rpower t (- q) < Rpower s (- q).
Proof.
  intros Hq Hs Hst. unfold Rpower. apply exp_increasing.
  assert (ln s < ln t) by (apply ln_increasing; lra). nra.
Qed.

Lemma Rpower_neg_ne_1 (L x : R) :
  0 < L -> 0 < x -> x <> 1 -> Rpower x (- L) <> 1.
Proof.
  intros HL Hx Hne.
  destruct (Rlt_dec x 1) as [Hlt|Hge].
  - pose proof (Rpower_neg_decr L x 1 HL Hx Hlt) as H.
    rewrite Rpower_one in H. lra.
  - pose proof (Rpower_neg_decr L 1 x HL ltac:(lra) ltac:(lra)) as H.
    rewrite Rpower_one in H. lra.
Qed.

(** Mean-value form of the decrease of [t ^ (-L)] between [a] and [b]. *)
Lemma Rpower_secant (L a b : R) :
  0 < L -> 0 < a -> a < b ->
  exists c, a < c < b /\
    Rpower a (- L) - Rpower b (- L) = L * Rpower c (- (L + 1)) * (b - a).
Proof.
  intros HL Ha Hab.
  destruct (MVT_cor2 (fun t => Rpower t (- L))
                     (fun t => - L * Rpower t (- L - 1)) a b Hab)
    as (c & Hc & Hin).
  { intros c Hc. apply derivable_pt_lim_power. lra. }
  exists c. split; [exact Hin|].
  replace (- (L + 1)) with (- L - 1) by lra. lra.
Qed.

Lemma annuity_ratio_incr (L x1 x2 : R) :
  0 < L -> 1 < x1 -> x1 < x2 ->
  (x1 - 1) / (1 - Rpower x1 (- L)) < (x2 - 1) / (1 - Rpower x2 (- L)).
Proof.
  intros HL H1 H12.
  destruct (Rpower_secant L 1 x1 HL ltac:(lra) H1) as (c1 & Hc1 & E1).
  destruct (Rpower_secant L x1 x2 HL ltac:(lra) H12) as (c2 & Hc2 & E2).
  rewrite Rpower_one in E1.
  assert (Hm : Rpower c2 (- (L + 1)) < Rpower c1 (- (L + 1)))
    by (apply Rpower_neg_decr; lra).
  assert (Hp2 : 0 < Rpower c2 (- (L + 1))) by (unfold Rpower; apply exp_pos).
  set (m1 := Rpower c1 (- (L + 1))) in *.
  set (m2 := Rpower c2 (- (L + 1))) in *.
  set (A := Rpower x1 (- L)) in *. set (B := Rpower x2 (- L)) in *.
  assert (HA : 0 < 1 - A) by (rewrite E1; apply Rmult_lt_0_compat; [nra|lra]).
  assert (HB : 0 < A - B) by (rewrite E2; apply Rmult_lt_0_compat; [nra|lra]).
  assert (HK : 0 < L * (x1 - 1) * (x2 - x1) * (m1 - m2)).
  { repeat apply Rmult_lt_0_compat; lra. }
  assert (HX : (x1 - 1) * (1 - B) < (x2 - 1) * (1 - A)).
  { replace (1 - B) with ((1 - A) + (A - B)) by lra.
    rewrite E1, E2. lra. }
  apply (Rmult_lt_reg_r ((1 - A) * (1 - B))); [apply Rmult_lt_0_compat; lra|].
  replace ((x1 - 1) / (1 - A) * ((1 - A) * (1 - B))) with ((x1 - 1) * (1 - B))
    by (field; lra).
  replace ((x2 - 1) / (1 - B) * ((1 - A) * (1 - B))) with ((x2 - 1) * (1 - A))
    by (field; lra).
  exact HX.
Qed.

(** In the real reading the code computes the factor of the formula for
    any rate above -1. *)
Lemma calculate_annuity_simple_annuity (L r : R) :
  0 < L -> -1 < r -> calculate_annuity_simple L r = Ok (annuity L r).
Proof.
  intros HL Hr. unfold calculate_annuity_simple, annuity.
  destruct (decide (r = 0)) as [->|Hne].
  - unfold float_div. rewrite decide_False by lra. reflexivity.
  - unfold float_pow. rewrite decide_True by lra. munfold.
    unfold float_div. rewrite decide_False; [reflexivity|].
    pose proof (Rpower_neg_ne_1 L (1 + r) HL ltac:(lra) ltac:(lra)). lra.
Qed.

Lemma annuity_pos (L r : R) : 0 < L -> 0 <= r -> 0 < annuity L r.
Proof.
  intros HL Hr. unfold annuity. destruct (decide (r = 0)) as [->|Hne].
  - apply Rdiv_lt_0_compat; lra.
  - pose proof (Rpower_neg_decr L 1 (1 + r) HL ltac:(lra) ltac:(lra)) as H.
    rewrite Rpower_one in H. apply Rdiv_lt_0_compat; lra.
Qed.

Lemma annuity_ne_0 (L r : R) : 0 < L -> -1 < r -> annuity L r <> 0.
Proof.
  intros HL Hr. unfold annuity. destruct (decide (r = 0)) as [->|Hne].
  - intros H. apply Rmult_integral in H as [H|H]; [lra|].
    apply Rinv_neq_0_compat in H; [done|lra].
  - pose proof (Rpower_neg_ne_1 L (1 + r) HL ltac:(lra) ltac:(lra)) as Hp.
    intros H. apply Rmult_integral in H as [H|H]; [lra|].
    apply Rinv_neq_0_compat in H; [done|lra].
Qed.

Lemma annuity_incr (L r1 r2 : R) :
  0 < L -> 0 < r1 -> r1 < r2 -> annuity L r1 < annuity L r2.
Proof.
  intros HL H1 H12. unfold annuity.
  rewrite !decide_False by lra.
  pose proof (annuity_ratio_incr L (1 + r1) (1 + r2) HL ltac:(lra) ltac:(lra)) as H.
  replace (1 + r1 - 1) with r1 in H by lra.
  replace (1 + r2 - 1) with r2 in H by lra. exact H.
Qed.

(** C4.  The claim gives the annuity factor the value of the formula at
    every rate other than zero, but the code has no value at the rate
    1e-16 and lifetime 25: the rate is positive, so the guard for a zero
    rate does not apply; the sum [1 + discount_rate] is exactly 1.0 in
    binary64, so the power is 1.0, the divisor is 0.0 and the call raises
    [ZeroDivisionError].  The formula's own value there is a positive
    number. *)
Theorem annuity_raises_next_to_zero
    (pow_other : float -> float -> result float) :
  (0 <? tiny_rate)%float = true
  /\ (tiny_rate * 1e16)%float = 1%float
  /\ (tiny_rate =? 0)%float = false
  /\ (1 + tiny_rate)%float = 1%float
  /\ calculate_annuity_simple64 pow_other 25 tiny_rate
     = Raise ZeroDivisionError
  /\ annuity 25 1e-16 = 1e-16 / (1 - Rpower (1 + 1e-16) (- 25))
  /\ 0 < annuity 25 1e-16.
Proof.
  do 4 (split; [reflexivity|]). split; [|split].
  - unfold calculate_annuity_simple64, float_pow64, float_div64.
    reflexivity.
  - unfold annuity. by rewrite decide_False by lra.
  - apply annuity_pos; lra.
Qed.

(** ** Country-specific cost expansion *)

Section CostExpansion.

Variable costs : DataFrame string.
Variable cfg : costs_config.

Lemma country_costs_loop (countries : list string)
    (acc : list (DataFrame string)) :
  exists l,
    for_each (expand_country cfg) acc countries costs
    = (Ok (acc ++ (country_table costs cfg <$> countries)), costs, l).
Proof.
  revert acc. induction countries as [|c cs IH]; intros acc.
  - exists []. simpl. rewrite app_nil_r. reflexivity.
  - destruct (IH (acc ++ [country_table costs cfg c])) as [l Hl].
    cbn [for_each]. unfold mbind at 1. unfold M_bind at 1.
    unfold expand_country at 1. munfold.
    destruct (get_country_discount_rate_resolve c cfg costs) as [ev ->].
    fold (resolved_rate cfg c). fold (country_table costs cfg c).
    rewrite Hl. eexists. rewrite fmap_cons, <- app_assoc. reflexivity.
Qed.

Lemma concat_columns_lookup (name : string) (objs : list (DataFrame string))
    (acc : gmap string column) (xs : list R) (blocks : list (list R)) :
  acc !! name = Some (NumCol xs) ->
  Forall2 (fun o b => df_columns o !! name = Some (NumCol b)) objs blocks ->
  foldl (fun acc obj => intersection_with col_app acc (df_columns obj))
        acc objs !! name = Some (NumCol (xs ++ concat blocks)).
Proof.
  intros Hacc HF. revert acc xs Hacc.
  induction HF as [|o b os bs Ho _ IH]; intros acc xs Hacc; simpl.
  - by rewrite app_nil_r.
  - rewrite app_assoc. apply IH.
    rewrite lookup_intersection_with, Hacc, Ho. reflexivity.
Qed.

Lemma concat_columns_lookup_str (name : string)
    (objs : list (DataFrame string)) (acc : gmap string column)
    (xs : list string) (blocks : list (list string)) :
  acc !! name = Some (StrCol xs) ->
  Forall2 (fun o b => df_columns o !! name = Some (StrCol b)) objs blocks ->
  foldl (fun acc obj => intersection_with col_app acc (df_columns obj))
        acc objs !! name = Some (StrCol (xs ++ concat blocks)).
Proof.
  intros Hacc HF. revert acc xs Hacc.
  induction HF as [|o b os bs Ho _ IH]; intros acc xs Hacc; simpl.
  - by rewrite app_nil_r.
  - rewrite app_assoc. apply IH.
    rewrite lookup_intersection_with, Hacc, Ho. reflexivity.
Qed.

(** Rows of a block-wise concatenation: the cell next to a label of
    country [c] is the cell of [c]'s block. *)
Lemma concat_blocks_lookup {A} (idx : list string) (cell : string -> A)
    (countries : list string) (p : nat) (c t : string) :
  concat ((fun c => pair c <$> idx) <$> countries) !! p = Some (c, t) ->
  concat ((fun c => replicate (length idx) (cell c)) <$> countries) !! p
    = Some (cell c).
Proof.
  revert p. induction countries as [|c0 cs IH]; intros p; simpl; [done|].
  destruct (decide (p < length idx)%nat) as [Hlt|Hge].
  - rewrite lookup_app_l by (by rewrite length_fmap).
    rewrite lookup_app_l by (by rewrite length_replicate).
    rewrite list_lookup_fmap. intros H.
    destruct (idx !! p); simplify_eq/=.
    by apply lookup_replicate_2.
  - rewrite lookup_app_r by (rewrite length_fmap; lia).
    rewrite lookup_app_r by (rewrite length_replicate; lia).
    rewrite length_fmap, length_replicate. apply IH.
Qed.

Lemma concat_blocks_length (idx : list string) (countries : list string) :
  length (concat ((fun c => pair c <$> idx) <$> countries))
    = (length countries * length idx)%nat.
Proof.
  induction countries as [|c0 cs IH]; csimpl; [done|].
  rewrite length_app, IH, length_fmap. done.
Qed.

Lemma expanded_index (countries : list string) :
  concat (zip_with (fun k obj => pair k <$> df_index obj) countries
                   (country_table costs cfg <$> countries))
    = concat ((fun c => pair c <$> df_index costs) <$> countries).
Proof.
  f_equal. induction countries as [|c0 cs IH]; csimpl; [done|].
  f_equal. exact IH.
Qed.

Lemma pd_concat_country_dfs (countries : list string) :
  countries <> [] ->
  exists expanded,
    pd_concat (country_table costs cfg <$> countries) countries = Ok expanded
    /\ df_index expanded
         = concat ((fun c => pair c <$> df_index costs) <$> countries)
    /\ df_columns expanded !! "discount rate"
         = Some (NumCol (concat ((fun c => replicate (df_len costs) (resolved_rate cfg c))
                                   <$> countries)))
    /\ df_columns expanded !! "country"
         = Some (StrCol (concat ((fun c => replicate (df_len costs) c)
                                   <$> countries))).
Proof.
  destruct countries as [|c0 cs]; [done|]. intros _.
  unfold pd_concat. rewrite fmap_cons. eexists. split; [reflexivity|].
  cbn [df_index df_columns]. split; [|split].
  - rewrite <- fmap_cons. apply (expanded_index (c0 :: cs)).
  - rewrite fmap_cons, concat_cons.
    apply (concat_columns_lookup "discount rate").
    + unfold country_table, set_column_scalar. cbn [df_columns df_index].
      rewrite lookup_insert_ne by done. by rewrite lookup_insert_eq.
    + clear. induction cs as [|c1 cs IH]; csimpl; constructor; [|done].
      unfold country_table, set_column_scalar. cbn [df_columns df_index].
      rewrite lookup_insert_ne by done. by rewrite lookup_insert_eq.
  - rewrite fmap_cons, concat_cons.
    apply (concat_columns_lookup_str "country").
    + unfold country_table, set_column_scalar. cbn [df_columns df_index].
      by rewrite lookup_insert_eq.
    + clear. induction cs as [|c1 cs IH]; csimpl; constructor; [|done].
      unfold country_table, set_column_scalar. cbn [df_columns df_index].
      by rewrite lookup_insert_eq.
Qed.

Lemma apply_country_specific_costs_multi (countries : list string) :
  (1 < length countries)%nat ->
  exists expanded l,
    apply_country_specific_costs countries cfg costs
      = (Ok (NewTable expanded), costs, l)
    /\ df_index expanded
         = concat ((fun c => pair c <$> df_index costs) <$> countries)
    /\ df_columns expanded !! "discount rate"
         = Some (NumCol (concat ((fun c => replicate (df_len costs) (resolved_rate cfg c))
                                   <$> countries)))
    /\ df_columns expanded !! "country"
         = Some (StrCol (concat ((fun c => replicate (df_len costs) c)
                                   <$> countries))).
Proof.
  intros Hlen. unfold apply_country_specific_costs.
  rewrite decide_True by done.
  destruct (country_costs_loop countries []) as [l Hl].
  destruct (pd_concat_country_dfs countries) as (expanded & Hc & Hrest).
  { intros ->. simpl in Hlen. lia. }
  unfold mbind at 1. unfold M_bind at 1.
  rewrite Hl. rewrite app_nil_l. munfold. rewrite Hc.
  eexists _, _. split; [reflexivity|]. exact Hrest.
Qed.

Lemma apply_country_specific_costs_single (c : string) :
  exists l,
    apply_country_specific_costs [c] cfg costs
      = (Ok SameTable,
         set_column_scalar "discount rate" (SNum (resolved_rate cfg c)) costs, l).
Proof.
  unfold apply_country_specific_costs.
  rewrite decide_False by (simpl; lia). munfold. simpl.
  destruct (get_country_discount_rate_resolve c cfg costs) as [ev ->].
  eexists. reflexivity.
Qed.

End CostExpansion.

(** C5. With more than one country the call returns a new table of
    [len(countries) * len(costs)] rows, labelled (country, technology), in
    which the [discount rate] of every row is the resolved rate of the row's
    country and a [country] column holds the country; the caller's table is
    not touched.  With exactly one country the call returns the caller's
    own table, mutated in place: same rows, the [discount rate] column
    overwritten by that country's resolved rate. *)
Theorem apply_country_specific_costs_spec (costs : DataFrame string)
    (countries : list string) (cfg : costs_config) :
  let rate c := resolve c (default ∅ (country_specific_discountrate cfg))
                        (social_discountrate cfg) in
  ((1 < length countries)%nat ->
   exists expanded l,
     apply_country_specific_costs countries cfg costs
       = (Ok (NewTable expanded), costs, l)
     /\ df_len expanded = (length countries * df_len costs)%nat
     /\ df_index expanded
          = concat ((fun c => pair c <$> df_index costs) <$> countries)
     /\ forall p c t, df_index expanded !! p = Some (c, t) ->
          num_at expanded "discount rate" p = Some (rate c)
          /\ str_at expanded "country" p = Some c)
  /\ (forall c, countries = [c] ->
      exists costs' l,
        apply_country_specific_costs countries cfg costs
          = (Ok SameTable, costs', l)
        /\ df_index costs' = df_index costs
        /\ (forall name, name <> "discount rate" ->
              df_columns costs' !! name = df_columns costs !! name)
        /\ forall p, (p < df_len costs)%nat ->
             num_at costs' "discount rate" p = Some (rate c)).
Proof.
  intros rate. split.
  - intros Hlen.
    destruct (apply_country_specific_costs_multi costs cfg countries Hlen)
      as (expanded & l & Hrun & Hidx & Hdr & Hct).
    exists expanded, l. split; [exact Hrun|].
    split; [|split; [exact Hidx|]].
    + unfold df_len. rewrite Hidx. apply concat_blocks_length.
    + intros p c t Hp. rewrite Hidx in Hp. unfold num_at, str_at.
      rewrite Hdr, Hct. split.
      * apply (concat_blocks_lookup _ rate _ _ _ _ Hp).
      * apply (concat_blocks_lookup _ (fun c => c) _ _ _ _ Hp).
  - intros c ->.
    destruct (apply_country_specific_costs_single costs cfg c) as [l Hrun].
    eexists _, l. split; [exact Hrun|]. split; [reflexivity|]. split.
    + intros name Hne. unfold set_column_scalar. cbn [df_columns].
      by rewrite lookup_insert_ne.
    + intros p Hp. unfold num_at, set_column_scalar. cbn [df_columns].
      rewrite lookup_insert_eq. by apply lookup_replicate_2.
Qed.

Lemma apply_country_specific_costs_spec_witness :
  let costs := mkDataFrame ["solar"%string; "onwind"%string]
                 {["discount rate"%string := NumCol [0.07; 0.07]]} in
  let cfg := mkCostsConfig (Some {["UA"%string := 0.1]}) (Some 0.07) in
  exists expanded l,
    apply_country_specific_costs ["UA"%string; "DE"%string] cfg costs
      = (Ok (NewTable expanded), costs, l)
    /\ df_len expanded = 4%nat
    /\ num_at expanded "discount rate" 0 = Some 0.1
    /\ num_at expanded "discount rate" 2 = Some 0.07.
Proof.
  intros costs cfg.
  destruct (apply_country_specific_costs_spec costs
              ["UA"%string; "DE"%string] cfg) as [Hmulti _].
  destruct Hmulti as (expanded & l & Hrun & Hlen & Hidx & Hrows);
    [simpl; lia|].
  exists expanded, l. split; [exact Hrun|]. split; [exact Hlen|].
  split.
  - apply (Hrows 0%nat "UA"%string "solar"%string). by rewrite Hidx.
  - destruct (Hrows 2%nat "DE"%string "solar"%string) as [H _];
      [by rewrite Hidx|].
    rewrite H. f_equal.
Defined.

(** ** The capital-cost adjustment *)

Section AdjustLoop.

Variable country_rates : gmap string R.
Variable global_rate : R.
Hypothesis Hrates : rates_ok country_rates global_rate.

Lemma filter_zip_notin (idx : string) (ls : list string) (cs : list scalar) :
  idx ∉ ls -> filter (fun lv => lv.1 = idx) (zip ls cs) = [].
Proof.
  revert cs. induction ls as [|l ls IH]; intros cs Hin; [done|].
  destruct cs as [|c cs]; [done|]. simpl.
  rewrite filter_cons_False by (simpl; set_solver).
  apply IH. set_solver.
Qed.

Lemma imul_notin (idx : string) (f : R) (ls : list string) (xs : list R) :
  idx ∉ ls -> length xs = length ls ->
  zip_with (fun l x => if decide (l = idx) then x * f else x) ls xs = xs.
Proof.
  revert xs. induction ls as [|l ls IH]; intros [|x xs] Hin Hlen;
    simplify_eq/=; [done|].
  rewrite decide_False by set_solver. f_equal. apply IH; [set_solver|done].
Qed.

Lemma row_country_split (countries : countries_t) (ldone ltodo : list string)
    (idx : string) (cdone ctodo : list scalar) (c : scalar) :
  NoDup (ldone ++ idx :: ltodo) ->
  length cdone = length ldone ->
  country_cells countries = cdone ++ c :: ctodo ->
  country_labels_are countries (ldone ++ idx :: ltodo) ->
  row_country countries (length ldone) idx = Ok (LScalar c).
Proof.
  intros Hnd Hlen Hcells Hlabels.
  apply NoDup_app in Hnd as (_ & Hdis & Hnd).
  apply NoDup_cons in Hnd as [Hnotin _].
  destruct countries as [labels values|values]; simpl in *.
  - subst labels. unfold series_loc. rewrite Hcells.
    rewrite zip_with_app by done. simpl.
    rewrite filter_app, filter_cons_True by done.
    rewrite !filter_zip_notin; [done|done|].
    intros Hin. by apply (Hdis idx); [|left].
  - destruct (fmap_app_inv _ _ _ _ Hcells) as (v1 & v2 & -> & Hv2 & ->).
    symmetry in Hv2.
    destruct (fmap_cons_inv _ _ _ _ Hv2) as (v & v2' & -> & _ & ->).
    rewrite length_fmap in Hlen. unfold list_getitem.
    rewrite lookup_app_r by lia. rewrite Hlen, Nat.sub_diag. reflexivity.
Qed.

Lemma adjust_row_step (countries : countries_t) (cols0 : gmap string column)
    (ldone ltodo : list string) (idx : string)
    (cdone ctodo : list scalar) (c : scalar)
    (done todo : list R) (x : R) (changed : list changed_entry) :
  NoDup (ldone ++ idx :: ltodo) ->
  length cdone = length ldone ->
  length done = length ldone ->
  length todo = length ltodo ->
  country_cells countries = cdone ++ c :: ctodo ->
  country_labels_are countries (ldone ++ idx :: ltodo) ->
  adjust_row countries country_rates global_rate changed (length ldone, idx)
    (mkDataFrame (ldone ++ idx :: ltodo)
       (<["capital_cost" := NumCol (done ++ x :: todo)]> cols0))
  = (Ok (changed ++ changed_entries country_rates global_rate [(idx, c)]),
     mkDataFrame (ldone ++ idx :: ltodo)
       (<["capital_cost" :=
            NumCol (done ++ adjusted_cost country_rates global_rate c x :: todo)]>
          cols0),
     []).
Proof.
  intros Hnd Hc Hd Ht Hcells Hlabels.
  unfold adjust_row.
  rewrite (row_country_split _ _ _ _ _ _ _ Hnd Hc Hcells Hlabels).
  unfold changed_entries, adjusted_cost, adjustment. simpl.
  destruct c as [v|s]; simpl.
  { munfold. simpl. by rewrite app_nil_r. }
  munfold. simpl. unfold dict_getitem.
  destruct (country_rates !! s) as [r|] eqn:Er; simpl.
  2: { by rewrite app_nil_r. }
  destruct (decide (Rabs (r - global_rate) > 0.001)) as [Hfar|Hnear];
    [|by rewrite app_nil_r].
  destruct Hrates as [Hg Hr]. specialize (Hr _ _ Er).
  rewrite !calculate_annuity_simple_annuity by lra.
  unfold float_div.
  rewrite decide_False by (apply annuity_ne_0; lra).
  unfold loc_imul. munfold. simpl. rewrite lookup_insert_eq. simpl.
  rewrite insert_insert_eq.
  apply NoDup_app in Hnd as (_ & Hdis & Hnd).
  apply NoDup_cons in Hnd as [Hnotin _].
  rewrite zip_with_app by done. simpl.
  rewrite decide_True by done.
  rewrite !imul_notin; [done|done|done| |done].
  intros Hin. by apply (Hdis idx); [|left].
Qed.

Lemma changed_entries_cons (row : string * scalar)
    (rows : list (string * scalar)) :
  changed_entries country_rates global_rate (row :: rows)
  = changed_entries country_rates global_rate [row]
      ++ changed_entries country_rates global_rate rows.
Proof.
  unfold changed_entries. simpl.
  destruct (adjustment country_rates global_rate row.2) as [[r f]|]; done.
Qed.

Lemma adjust_loop (countries : countries_t) (cols0 : gmap string column)
    (ltodo ldone : list string) (cdone ctodo : list scalar)
    (done todo : list R) (changed : list changed_entry) :
  NoDup (ldone ++ ltodo) ->
  length cdone = length ldone ->
  length done = length ldone ->
  length ctodo = length ltodo ->
  length todo = length ltodo ->
  country_cells countries = cdone ++ ctodo ->
  country_labels_are countries (ldone ++ ltodo) ->
  for_each (adjust_row countries country_rates global_rate) changed
    (zip (seq (length ldone) (length ltodo)) ltodo)
    (mkDataFrame (ldone ++ ltodo)
       (<["capital_cost" := NumCol (done ++ todo)]> cols0))
  = (Ok (changed
           ++ changed_entries country_rates global_rate (zip ltodo ctodo)),
     mkDataFrame (ldone ++ ltodo)
       (<["capital_cost" :=
            NumCol (done ++ zip_with (adjusted_cost country_rates global_rate)
                                     ctodo todo)]> cols0),
     []).
Proof.
  revert ldone cdone ctodo done todo changed.
  induction ltodo as [|idx ltodo IH];
    intros ldone cdone ctodo done todo changed Hnd Hc Hd Hct Ht Hcells Hlab.
  - destruct ctodo; [|done]. destruct todo; [|done].
    simpl. rewrite !app_nil_r. reflexivity.
  - destruct ctodo as [|c ctodo]; [done|]. destruct todo as [|x todo]; [done|].
    simpl in Hct, Ht.
    cbn [length seq zip zip_with for_each].
    unfold mbind at 1. unfold M_bind at 1.
    rewrite (adjust_row_step countries cols0 ldone ltodo idx cdone ctodo c
               done todo x changed Hnd Hc Hd ltac:(lia) Hcells Hlab).
    specialize (IH (ldone ++ [idx]) (cdone ++ [c]) ctodo
                   (done ++ [adjusted_cost country_rates global_rate c x])
                   todo
                   (changed ++ changed_entries country_rates global_rate
                                 [(idx, c)])).
    replace (length (ldone ++ [idx])) with (S (length ldone)) in IH
      by (rewrite length_app; simpl; lia).
    rewrite <- !(app_assoc ldone [idx] ltodo) in IH.
    rewrite <- !(app_assoc done [_] _) in IH.
    rewrite <- !(app_assoc cdone [c] ctodo) in IH.
    change ([idx] ++ ltodo) with (idx :: ltodo) in IH.
    change ([c] ++ ctodo) with (c :: ctodo) in IH.
    change ([adjusted_cost country_rates global_rate c x] ++ ?l)
      with (adjusted_cost country_rates global_rate c x :: l) in IH.
    rewrite IH; [|done|rewrite !length_app; simpl; lia
                 |rewrite !length_app; simpl; lia|lia|lia|done|done].
    rewrite (changed_entries_cons (idx, c) (zip ltodo ctodo)).
    rewrite <- !app_assoc. reflexivity.
Qed.

End AdjustLoop.

Lemma derived_countries_length (component : DataFrame string)
    (cs : list scalar) :
  df_wf component ->
  derived_countries component = Some cs ->
  length cs = df_len component.
Proof.
  intros Hwf. unfold derived_countries.
  destruct (df_columns component !! "bus") as [[xs|xs]|] eqn:Eb; [done| |].
  - intros [= <-]. rewrite length_fmap. apply (Hwf _ _ Eb).
  - destruct (df_columns component !! "country") as [c|] eqn:Ec.
    + intros [= <-]. specialize (Hwf _ _ Ec).
      destruct c; simpl in *; by rewrite length_fmap.
    + intros [= <-]. by rewrite length_fmap.
Qed.

(** The whole call on a well-formed table: the value returned, the table
    left behind and the log. *)
Lemma apply_to_component_run (component_name : string)
    (country_rates : gmap string R) (global_rate : R)
    (component : DataFrame string) :
  component_ok component ->
  rates_ok country_rates global_rate ->
  _apply_to_component_improved component_name country_rates global_rate
    component
  = (Ok (adjusted_count country_rates global_rate component),
     adjusted_component country_rates global_rate component,
     adjustment_log component_name country_rates global_rate component).
Proof.
  intros (Hnd & Hwf & Hbus & Hcap) Hrates.
  unfold _apply_to_component_improved.
  unfold mbind at 1. unfold M_bind at 1. unfold get_state at 1.
  unfold adjusted_count, adjusted_component, adjustment_log.
  destruct component as [idx cols]. cbn [df_index df_columns] in *.
  destruct (df_empty (mkDataFrame idx cols)) eqn:Eempty.
  { (* an empty table: the call returns at once *)
    munfold. rewrite app_nil_r.
    destruct (cols !! "capital_cost") as [[xs|xs]|] eqn:Ec; try done.
    destruct (derived_countries _) as [cs|] eqn:Ed; [|done].
    unfold df_empty in Eempty. cbn [df_index df_columns] in Eempty.
    destruct idx as [|i idx].
    - pose proof (Hwf _ _ Ec) as Hlen. simpl in Hlen.
      destruct xs; [|done]. rewrite zip_with_nil_r. simpl.
      by rewrite insert_id.
    - apply bool_decide_eq_true in Eempty.
      assert (Hin : "capital_cost"%string ∈ dom cols)
        by (apply elem_of_dom; eauto).
      rewrite Eempty in Hin. set_solver. }
  assert (Hcountries : exists countries cs,
    (match cols !! "bus" with
     | Some bus =>
         values ← str_slice2 bus; mret (CSeries idx values)
     | None =>
         match cols !! "country" with
         | Some country => Ok (CSeries idx country)
         | None => Ok (CIndex (String.substring 0 2 <$> idx))
         end
     end) = Ok countries
    /\ derived_countries (mkDataFrame idx cols) = Some cs
    /\ country_cells countries = cs
    /\ country_labels_are countries idx).
  { unfold derived_countries. cbn [df_index df_columns].
    destruct (cols !! "bus") as [[xs|xs]|] eqn:Eb.
    - by destruct (Hbus xs).
    - eexists _, _. split; [reflexivity|]. split; [reflexivity|].
      split; [|done]. simpl. by rewrite <- list_fmap_compose.
    - destruct (cols !! "country") as [c|] eqn:Ec.
      + eexists _, _. split; [reflexivity|]. done.
      + eexists _, _. split; [reflexivity|]. split; [reflexivity|].
        split; [|done]. simpl. by rewrite <- list_fmap_compose. }
  destruct Hcountries as (countries & cs & -> & Hd & Hcells & Hlab).
  rewrite Hd. munfold. unfold has_column. cbn [df_columns].
  destruct (cols !! "capital_cost") as [[xs|xs]|] eqn:Ec.
  - rewrite bool_decide_eq_true_2 by eauto. cbn [negb].
    pose proof (derived_countries_length _ _ Hwf Hd) as Hlen.
    pose proof (Hwf _ _ Ec) as Hlenx. unfold df_len in *.
    cbn [df_index col_length] in *.
    pose proof (adjust_loop country_rates global_rate Hrates countries cols
                  idx [] [] cs [] xs []) as Hloop.
    rewrite !app_nil_l in Hloop. cbn [length] in Hloop.
    rewrite insert_id in Hloop by done.
    unfold enumerate.
    rewrite Hloop by done.
    rewrite !app_nil_l, app_nil_r. reflexivity.
  - by destruct (Hcap xs).
  - rewrite bool_decide_eq_false_2 by (intros [? ?]; done). cbn [negb].
    reflexivity.
Qed.

(** *** The loop over the component kinds *)

Lemma get_set_component_eq (k : component_kind) (df : DataFrame string)
    (network : Network) :
  get_component k (set_component k df network) = Some df.
Proof. by destruct k. Qed.

Lemma get_set_component_ne (k k' : component_kind) (df : DataFrame string)
    (network : Network) :
  k <> k' -> get_component k' (set_component k df network)
             = get_component k' network.
Proof. by destruct k, k'. Qed.

Lemma adjusted_count_empty (country_rates : gmap string R) (global_rate : R)
    (df : DataFrame string) :
  df_empty df = true -> adjusted_count country_rates global_rate df = 0%nat.
Proof.
  unfold df_empty, adjusted_count. intros He.
  destruct (df_columns df !! "capital_cost") as [[xs|xs]|] eqn:Ec; try done.
  destruct (derived_countries df) as [cs|]; [|done].
  destruct (df_index df); [done|].
  apply bool_decide_eq_true in He.
  assert (Hin : "capital_cost"%string ∈ dom (df_columns df))
    by (apply elem_of_dom; eauto).
  rewrite He in Hin. set_solver.
Qed.

Section NetworkLoop.

Variable country_rates : gmap string R.
Variable global_rate : R.
Hypothesis Hrates : rates_ok country_rates global_rate.

Lemma network_loop (ks : list component_kind) (network : Network)
    (acc : nat) :
  NoDup ks ->
  (forall k, k ∈ ks ->
     exists df, get_component k network = Some df /\ component_ok df) ->
  exists network' l,
    for_each (adjust_kind country_rates global_rate) acc ks network
      = (Ok (acc + sum_list (kind_count country_rates global_rate network
                               <$> ks))%nat,
         network', l)
    /\ (forall k, k ∉ ks ->
          get_component k network' = get_component k network)
    /\ (forall k df, k ∈ ks -> get_component k network = Some df ->
          get_component k network'
            = Some (adjusted_component country_rates global_rate df)).
Proof.
  revert network acc.
  induction ks as [|k ks IH]; intros network acc Hnd Hok.
  - eexists _, _. split; [|split].
    + simpl. rewrite Nat.add_0_r. reflexivity.
    + done.
    + intros k df Hin. by apply elem_of_nil in Hin.
  - apply NoDup_cons in Hnd as [Hnotin Hnd].
    destruct (Hok k ltac:(left)) as (df & Hdf & Hdfok).
    cbn [for_each]. unfold mbind at 1. unfold M_bind at 1.
    unfold adjust_kind at 1. munfold. rewrite Hdf. cbn [default].
    rewrite (apply_to_component_run _ _ _ _ Hdfok Hrates).
    set (network1 := set_component k _ network).
    destruct (IH network1
                (acc + adjusted_count country_rates global_rate df)%nat Hnd)
      as (network' & l & Hrun & Hother & Hin).
    { intros k' Hk'. destruct (Hok k' ltac:(by right)) as (df' & Hdf' & Hok').
      exists df'. split; [|done]. unfold network1.
      rewrite get_set_component_ne; [done|]. intros ->. done. }
    rewrite Hrun.
    assert (Hsame : kind_count country_rates global_rate network1 <$> ks
                    = kind_count country_rates global_rate network <$> ks).
    { apply Forall_fmap_ext_1, Forall_forall. intros k' Hk'.
      unfold kind_count, network1.
      rewrite get_set_component_ne; [done|]. intros ->. done. }
    eexists _, _. split; [|split].
    + rewrite Hsame. rewrite fmap_cons. cbn [sum_list sum_list_with].
      unfold kind_count at 2. rewrite Hdf.
      rewrite Nat.add_assoc. reflexivity.
    + intros k' Hk'. rewrite Hother by set_solver. unfold network1.
      apply get_set_component_ne. set_solver.
    + intros k' df' Hk' Hdf'. apply elem_of_cons in Hk' as [->|Hk'].
      * rewrite Hother by done. unfold network1.
        rewrite get_set_component_eq. congruence.
      * apply Hin; [done|]. unfold network1.
        rewrite get_set_component_ne; [done|]. intros ->. done.
Qed.

End NetworkLoop.

Lemma adjusted_component_empty (country_rates : gmap string R)
    (global_rate : R) (df : DataFrame string) :
  df_wf df -> df_empty df = true ->
  adjusted_component country_rates global_rate df = df.
Proof.
  intros Hwf He. unfold adjusted_component.
  destruct (df_columns df !! "capital_cost") as [[xs|xs]|] eqn:Ec; try done.
  destruct (derived_countries df) as [cs|]; [|done].
  destruct df as [idx cols]. unfold df_empty in He.
  cbn [df_index df_columns] in *.
  destruct idx as [|i idx].
  - pose proof (Hwf _ _ Ec) as Hlen. simpl in Hlen.
    destruct xs; [|done]. rewrite zip_with_nil_r. by rewrite insert_id.
  - apply bool_decide_eq_true in He.
    assert (Hin : "capital_cost"%string ∈ dom cols)
      by (apply elem_of_dom; eauto).
    rewrite He in Hin. set_solver.
Qed.

Lemma sum_list_filter_zero {A} (f : A -> nat) (P : A -> Prop)
    `{forall x, Decision (P x)} (l : list A) :
  (forall x, ~ P x -> f x = 0%nat) ->
  sum_list (f <$> filter P l) = sum_list (f <$> l).
Proof.
  intros Hz. induction l as [|x l IH]; [done|].
  rewrite filter_cons. destruct (decide (P x)) as [HP|HP]; csimpl.
  - by rewrite IH.
  - by rewrite IH, (Hz x HP).
Qed.

(** With an empty (or missing) table of country rates the call returns
    before it looks at any component. *)
Lemma apply_to_network_no_rates (cfg : costs_config) (g : R)
    (network : Network) :
  social_discountrate cfg = Some g ->
  default ∅ (country_specific_discountrate cfg) = ∅ ->
  apply_country_discount_rates_to_network cfg network
    = (Ok PyNone, network, [InfoApplying; InfoNoCountryRates]).
Proof.
  intros Hg He. unfold apply_country_discount_rates_to_network.
  rewrite Hg, He. munfold. by rewrite decide_True.
Qed.

(** The whole call on a network of well-formed tables. *)
Lemma apply_to_network_run (cfg : costs_config) (g : R) (network : Network) :
  let country_rates := default ∅ (country_specific_discountrate cfg) in
  let total :=
    (kind_count country_rates g network Generators
     + kind_count country_rates g network StorageUnits
     + kind_count country_rates g network Stores
     + kind_count country_rates g network Links)%nat in
  social_discountrate cfg = Some g ->
  country_rates <> ∅ ->
  rates_ok country_rates g ->
  (forall k df, get_component k network = Some df -> component_ok df) ->
  exists network' l,
    apply_country_discount_rates_to_network cfg network
      = (Ok PyNone, network',
         [InfoApplying] ++ l
           ++ [if decide (0 < total)%nat then InfoAppliedTotal total
               else InfoNoAdjustments])
    /\ forall k, get_component k network'
                 = adjusted_component country_rates g <$> get_component k network.
Proof.
  intros country_rates total Hg Hne Hrates Hok.
  unfold apply_country_discount_rates_to_network.
  rewrite Hg. fold country_rates. munfold. rewrite decide_False by done.
  set (ks := filter (fun k => to_process network k = true)
                    [Generators; StorageUnits; Stores; Links]).
  assert (Hnd : NoDup ks).
  { apply NoDup_filter. compute_done. }
  destruct (network_loop country_rates g Hrates ks network 0%nat Hnd)
    as (network' & l & Hrun & Hother & Hin).
  { intros k Hk. apply list_elem_of_filter in Hk as [Hk _].
    unfold to_process in Hk.
    destruct (get_component k network) as [df|] eqn:Edf; [|done].
    exists df. split; [done|]. by apply (Hok k). }
  munfold. rewrite Hrun. cbn [Nat.add].
  assert (Htotal : sum_list (kind_count country_rates g network <$> ks) = total).
  { unfold ks. rewrite sum_list_filter_zero.
    - unfold total. simpl. lia.
    - intros k Hk. unfold kind_count. unfold to_process in Hk.
      destruct (get_component k network) as [df|]; [|done].
      apply adjusted_count_empty. by destruct (df_empty df). }
  rewrite Htotal.
  exists network', l. split.
  - destruct (decide (0 < total)%nat); munfold; by rewrite app_nil_r.
  - intros k. destruct (decide (k ∈ ks)) as [Hk|Hk].
    + pose proof Hk as Hk'. apply list_elem_of_filter in Hk' as [Hk' _].
      unfold to_process in Hk'.
      destruct (get_component k network) as [df|] eqn:Edf; [|done].
      by apply Hin.
    + rewrite Hother by done.
      destruct (get_component k network) as [df|] eqn:Edf; [|done].
      simpl. f_equal. symmetry. apply adjusted_component_empty.
      * by destruct (Hok k df Edf) as (_ & Hwf & _).
      * assert (Hnp : to_process network k <> true).
        { intros Hp. apply Hk. apply list_elem_of_filter. split; [done|].
          destruct k; set_solver. }
        unfold to_process in Hnp. rewrite Edf in Hnp.
        by destruct (df_empty df).
Qed.

(** *** What the adjustment leaves alone *)

Lemma only_capital_cost_refl (df : DataFrame string) : only_capital_cost df df.
Proof. done. Qed.

Lemma only_capital_cost_trans (a b c : DataFrame string) :
  only_capital_cost a b -> only_capital_cost b c -> only_capital_cost a c.
Proof.
  intros (Hi & Hd & Hc) (Hi' & Hd' & Hc'). split; [congruence|].
  split; [congruence|]. intros name Hne. rewrite Hc', Hc; done.
Qed.

Lemma loc_imul_frame (idx : string) (f : R) (st : DataFrame string) :
  only_capital_cost st (loc_imul idx "capital_cost" f st).1.2.
Proof.
  unfold loc_imul. munfold.
  destruct (df_columns st !! "capital_cost") as [[xs|xs]|] eqn:Ec;
    simpl; try apply only_capital_cost_refl.
  split; [done|]. split.
  - simpl. rewrite dom_insert_L. apply subseteq_union_1_L.
    apply singleton_subseteq_l, elem_of_dom. eauto.
  - intros name Hne. simpl. by rewrite lookup_insert_ne.
Qed.

Lemma adjust_row_frame (countries : countries_t)
    (country_rates : gmap string R) (global_rate : R)
    (changed : list changed_entry) (row : nat * string)
    (st : DataFrame string) :
  only_capital_cost st
    (adjust_row countries country_rates global_rate changed row st).1.2.
Proof.
  unfold adjust_row. destruct row as [i idx]. munfold.
  destruct (row_country countries i idx) as [country|e]; simpl;
    [|apply only_capital_cost_refl].
  destruct (dict_contains country_rates country) as [[|]|e]; simpl;
    try apply only_capital_cost_refl.
  destruct (dict_getitem_at country_rates country) as [rate|e]; simpl;
    [|apply only_capital_cost_refl].
  destruct (decide (Rabs (rate - global_rate) > 0.001)); simpl;
    [|apply only_capital_cost_refl].
  destruct (calculate_annuity_simple 25 global_rate) as [old|e]; simpl;
    [|apply only_capital_cost_refl].
  destruct (calculate_annuity_simple 25 rate) as [new|e]; simpl;
    [|apply only_capital_cost_refl].
  destruct (float_div new old) as [factor|e]; simpl;
    [|apply only_capital_cost_refl].
  pose proof (loc_imul_frame idx factor st) as Hf.
  destruct (loc_imul idx "capital_cost" factor st) as [[[[]|e] st'] l];
    simpl in *; exact Hf.
Qed.

Lemma for_each_frame {A X} (body : A -> X -> M (DataFrame string) A)
    (xs : list X) (acc : A) (st : DataFrame string) :
  (forall acc x st, only_capital_cost st (body acc x st).1.2) ->
  only_capital_cost st (for_each body acc xs st).1.2.
Proof.
  intros Hbody. revert acc st.
  induction xs as [|x xs IH]; intros acc st; [apply only_capital_cost_refl|].
  cbn [for_each]. unfold mbind, M_bind.
  pose proof (Hbody acc x st) as H1.
  destruct (body acc x st) as [[[acc'|e] st'] l]; simpl in *; [|exact H1].
  pose proof (IH acc' st') as H2.
  destruct (for_each body acc' xs st') as [[r st''] l']; simpl in *.
  by apply (only_capital_cost_trans _ st').
Qed.

(** Whatever the table and whatever the outcome, also when the call
    raises half-way: the call changes cells of [capital_cost] only. *)
Lemma apply_to_component_frame (component_name : string)
    (country_rates : gmap string R) (global_rate : R)
    (component : DataFrame string) :
  only_capital_cost component
    (_apply_to_component_improved component_name country_rates global_rate
       component).1.2.
Proof.
  unfold _apply_to_component_improved.
  unfold mbind at 1. unfold M_bind at 1. unfold get_state at 1.
  destruct (df_empty component); [apply only_capital_cost_refl|].
  unfold mbind at 1. unfold M_bind at 1. unfold lift at 1.
  match goal with
  | |- context [match ?r with Ok _ => _ | Raise _ => _ end] =>
      destruct r as [countries|e]
  end; [|apply only_capital_cost_refl].
  destruct (negb (has_column component "capital_cost"));
    [apply only_capital_cost_refl|].
  pose proof (for_each_frame
                (adjust_row countries country_rates global_rate)
                (enumerate (df_index component)) [] component
                (adjust_row_frame countries country_rates global_rate)) as Hf.
  unfold mbind, M_bind.
  destruct (for_each _ _ _ component) as [[[changed|e] st'] l];
    simpl in *; exact Hf.
Qed.

(** *** The rows and the count *)

Lemma adjustment_rate_of (country_rates : gmap string R) (global_rate : R)
    (c : scalar) :
  adjustment country_rates global_rate c
  = match rate_of country_rates c with
    | Some r =>
        if decide (Rabs (r - global_rate) > 0.001)
        then Some (r, annuity 25 r / annuity 25 global_rate)
        else None
    | None => None
    end.
Proof. by destruct c. Qed.

Lemma changed_entries_length (country_rates : gmap string R) (global_rate : R)
    (idx : list string) (cs : list scalar) :
  length cs = length idx ->
  length (changed_entries country_rates global_rate (zip idx cs))
  = length (filter (fun c => is_Some (adjustment country_rates global_rate c))
                   cs).
Proof.
  revert cs. induction idx as [|i idx IH]; intros [|c cs] Hlen;
    try done.
  injection Hlen as Hlen.
  change (zip (i :: idx) (c :: cs)) with ((i, c) :: zip idx cs).
  rewrite (changed_entries_cons country_rates global_rate (i, c)).
  rewrite length_app, IH by done. rewrite filter_cons.
  unfold changed_entries. simpl.
  destruct (adjustment country_rates global_rate c) as [[r f]|] eqn:E.
  - rewrite decide_True by eauto. done.
  - rewrite decide_False by (intros [? ?]; done). done.
Qed.

Lemma component_ok_derived (component : DataFrame string) :
  component_ok component ->
  exists cs, derived_countries component = Some cs
             /\ length cs = df_len component.
Proof.
  intros (_ & Hwf & Hbus & _).
  assert (exists cs, derived_countries component = Some cs) as [cs Hcs].
  { unfold derived_countries.
    destruct (df_columns component !! "bus") as [[xs|xs]|] eqn:Eb; eauto.
    - by destruct (Hbus xs).
    - destruct (df_columns component !! "country"); eauto. }
  exists cs. split; [done|]. by apply derived_countries_length.
Qed.

Lemma adjusted_component_num_at (country_rates : gmap string R)
    (global_rate : R) (component : DataFrame string) (cs : list scalar)
    (i : nat) (c : scalar) (x : R) :
  derived_countries component = Some cs ->
  cs !! i = Some c ->
  num_at component "capital_cost" i = Some x ->
  num_at (adjusted_component country_rates global_rate component)
         "capital_cost" i
  = Some (adjusted_cost country_rates global_rate c x).
Proof.
  intros Hd Hc. unfold num_at, adjusted_component. rewrite Hd.
  destruct (df_columns component !! "capital_cost") as [[xs|xs]|] eqn:Ec;
    try done.
  intros Hx. cbn [df_columns]. rewrite lookup_insert_eq.
  apply lookup_zip_with_Some. eauto.
Qed.

(** *** The sample network *)

Lemma sample_generators_ok : component_ok sample_generators.
Proof.
  unfold component_ok, sample_generators. cbn [df_index df_columns].
  split; [compute_done|]. split; [|split].
  - intros name c. unfold df_len. cbn [df_index df_columns].
    intros [[_ <-]|[_ [_ <-]%lookup_singleton_Some]]%lookup_insert_Some; done.
  - intros xs. by rewrite lookup_insert_eq.
  - intros xs. rewrite lookup_insert_ne by done.
    by rewrite lookup_singleton_eq.
Defined.

Lemma sample_rates_ok : rates_ok sample_rates 0.07.
Proof.
  split; [lra|]. unfold sample_rates.
  intros c r [_ <-]%lookup_singleton_Some. lra.
Defined.

Lemma sample_far : Rabs (0.1 - 0.07) > 0.001.
Proof. unfold Rabs. destruct (Rcase_abs _); lra. Defined.

Lemma sample_derived :
  derived_countries sample_generators = Some [SStr "DE"; SStr "FR"].
Proof.
  unfold derived_countries, sample_generators. cbn [df_columns].
  by rewrite lookup_insert_eq.
Defined.

Lemma sample_adjustment_DE :
  adjustment sample_rates 0.07 (SStr "DE")
  = Some (0.1, annuity 25 0.1 / annuity 25 0.07).
Proof.
  unfold adjustment, sample_rates. rewrite lookup_singleton_eq.
  by rewrite decide_True by apply sample_far.
Defined.

Lemma sample_adjustment_FR : adjustment sample_rates 0.07 (SStr "FR") = None.
Proof.
  unfold adjustment, sample_rates. by rewrite lookup_singleton_ne.
Defined.

Lemma sample_count : adjusted_count sample_rates 0.07 sample_generators = 1%nat.
Proof.
  unfold adjusted_count. rewrite sample_derived.
  unfold sample_generators. cbn [df_columns df_index].
  rewrite lookup_insert_ne by done. rewrite lookup_singleton_eq.
  unfold changed_entries. cbn [zip_with omap list_omap fst snd].
  by rewrite sample_adjustment_DE, sample_adjustment_FR.
Defined.

(** *** The claims on the adjustment *)



(** C8, as the code has it.  The call on one component table returns the
    number of rows it adjusted.  The call on the network adds these
    numbers up over generators, storage units, stores and links and writes
    the total to the log; what it returns is [None]. *)
Theorem adjustment_counts (cfg : costs_config) (g : R) (network : Network)
    (Hg : social_discountrate cfg = Some g)
    (Hne : default ∅ (country_specific_discountrate cfg) <> ∅)
    (Hrates : rates_ok (default ∅ (country_specific_discountrate cfg)) g)
    (Hok : forall k df, get_component k network = Some df -> component_ok df) :
  let country_rates := default ∅ (country_specific_discountrate cfg) in
  let total :=
    (kind_count country_rates g network Generators
     + kind_count country_rates g network StorageUnits
     + kind_count country_rates g network Stores
     + kind_count country_rates g network Links)%nat in
  (forall k df,
     get_component k network = Some df ->
     exists df' l cs,
       _apply_to_component_improved (kind_name k) country_rates g df
         = (Ok (kind_count country_rates g network k), df', l)
       /\ derived_countries df = Some cs
       /\ kind_count country_rates g network k
          = if has_column df "capital_cost"
            then length (filter (fun c => is_Some (adjustment country_rates g c))
                                cs)
            else 0%nat)
  /\ exists network' l,
       apply_country_discount_rates_to_network cfg network
         = (Ok PyNone, network',
            [InfoApplying] ++ l
              ++ [if decide (0 < total)%nat then InfoAppliedTotal total
                  else InfoNoAdjustments]).
Proof.
  intros country_rates total. split.
  - intros k df Hdf. pose proof (Hok k df Hdf) as Hdfok.
    destruct (component_ok_derived df Hdfok) as (cs & Hcs & Hlen).
    eexists _, _, cs. unfold kind_count. rewrite Hdf.
    split; [by apply apply_to_component_run|]. split; [done|].
    unfold adjusted_count, has_column. rewrite Hcs.
    destruct Hdfok as (_ & _ & _ & Hcap).
    destruct (df_columns df !! "capital_cost") as [[xs|xs]|] eqn:Ec.
    + rewrite bool_decide_eq_true_2 by eauto.
      by apply changed_entries_length.
    + by destruct (Hcap xs).
    + by rewrite bool_decide_eq_false_2 by (intros [? ?]; done).
  - destruct (apply_to_network_run cfg g network Hg Hne Hrates Hok)
      as (network' & l & Hrun & _).
    by exists network', l.
Qed.

Lemma sample_network_ok (k : component_kind) (df : DataFrame string) :
  get_component k sample_network = Some df -> component_ok df.
Proof.
  destruct k; simpl; intros [= <-]. apply sample_generators_ok.
Defined.

Lemma sample_rates_nonempty : sample_rates <> ∅.
Proof.
  intros H. apply (f_equal (fun m : gmap string R => m !! "DE"%string)) in H.
  unfold sample_rates in H. rewrite lookup_singleton_eq, lookup_empty in H.
  done.
Defined.

Lemma adjustment_counts_witness :
  exists network' l,
    apply_country_discount_rates_to_network sample_config sample_network
      = (Ok PyNone, network', [InfoApplying] ++ l ++ [InfoAppliedTotal 1]).
Proof.
  destruct (adjustment_counts sample_config 0.07 sample_network eq_refl
              sample_rates_nonempty sample_rates_ok sample_network_ok)
    as [_ (network' & l & Hrun)].
  exists network', l. rewrite Hrun. repeat f_equal.
  change (default ∅ (country_specific_discountrate sample_config))
    with sample_rates.
  unfold kind_count.
  cbn [get_component sample_network generators storage_units stores links].
  rewrite sample_count. reflexivity.
Defined.

(** C8, as stated, fails on the sample network: one generator is adjusted,
    the component call returns 1, and the network call returns [None], not
    the total 1. *)
Lemma network_call_returns_none :
  (_apply_to_component_improved "generators" sample_rates 0.07
     sample_generators).1.1 = Ok 1%nat
  /\ (apply_country_discount_rates_to_network sample_config
        sample_network).1.1 = Ok PyNone
  /\ (apply_country_discount_rates_to_network sample_config
        sample_network).1.1 <> Ok (PyInt 1).
Proof.
  split; [|split].
  - rewrite (apply_to_component_run _ _ _ _ sample_generators_ok
               sample_rates_ok).
    simpl. by rewrite sample_count.
  - destruct (apply_to_network_run sample_config 0.07 sample_network eq_refl
                sample_rates_nonempty sample_rates_ok sample_network_ok)
      as (network' & l & -> & _). done.
  - destruct (apply_to_network_run sample_config 0.07 sample_network eq_refl
                sample_rates_nonempty sample_rates_ok sample_network_ok)
      as (network' & l & -> & _). done.
Qed.

(** C10. A call changes nothing in the component table but cells of
    [capital_cost]: the row labels, the set of columns and every other
    column are the same afterwards, whatever the table and the outcome of
    the call.  On a well-formed table the cells of [capital_cost] of the
    rows that are not adjusted are the same as well, and so it is for the
    table of every component kind of a network. *)
Theorem capital_cost_only (component_name : string)
    (country_rates : gmap string R) (global_rate : R)
    (component : DataFrame string) :
  let component' :=
    (_apply_to_component_improved component_name country_rates global_rate
       component).1.2 in
  df_index component' = df_index component
  /\ dom (df_columns component') = dom (df_columns component)
  /\ (forall name, name <> "capital_cost"%string ->
        df_columns component' !! name = df_columns component !! name)
  /\ (component_ok component -> rates_ok country_rates global_rate ->
      forall cs i c x,
        derived_countries component = Some cs ->
        cs !! i = Some c ->
        adjustment country_rates global_rate c = None ->
        num_at component "capital_cost" i = Some x ->
        num_at component' "capital_cost" i = Some x)
  /\ (forall cfg network,
        social_discountrate cfg = Some global_rate ->
        default ∅ (country_specific_discountrate cfg) = country_rates ->
        rates_ok country_rates global_rate ->
        (forall k df, get_component k network = Some df -> component_ok df) ->
        forall k df,
          get_component k network = Some df ->
          exists df',
            get_component k
              (apply_country_discount_rates_to_network cfg network).1.2
              = Some df'
            /\ only_capital_cost df df').
Proof.
  intros component'.
  destruct (apply_to_component_frame component_name country_rates global_rate
              component) as (Hi & Hd & Hc).
  split; [exact Hi|]. split; [exact Hd|]. split; [exact Hc|]. split.
  - intros Hok Hrates cs i c x Hcs Hci Hadj Hx. unfold component'.
    rewrite (apply_to_component_run _ _ _ _ Hok Hrates). cbn [fst snd].
    rewrite (adjusted_component_num_at _ _ _ cs i c x Hcs Hci Hx).
    unfold adjusted_cost. by rewrite Hadj.
  - intros cfg network Hg Hcr Hrates Hok k df Hdf.
    destruct (decide (country_rates = ∅)) as [He|Hne].
    + rewrite (apply_to_network_no_rates cfg global_rate) by congruence.
      exists df. split; [done|]. apply only_capital_cost_refl.
    + subst country_rates.
      destruct (apply_to_network_run cfg global_rate network Hg Hne Hrates Hok)
        as (network' & l & -> & Hget).
      cbn [fst snd]. rewrite Hget, Hdf. eexists. split; [reflexivity|].
      pose proof (apply_to_component_frame (kind_name k)
                    (default ∅ (country_specific_discountrate cfg))
                    global_rate df) as Hf.
      by rewrite (apply_to_component_run _ _ _ _ (Hok k df Hdf) Hrates) in Hf.
Qed.

Lemma capital_cost_only_witness :
  let component' :=
    (_apply_to_component_improved "generators" sample_rates 0.07
       sample_generators).1.2 in
  df_index component' = df_index sample_generators
  /\ df_columns component' !! "bus"%string
     = Some (StrCol ["DE0"; "FR0"]%string)
  /\ num_at component' "capital_cost" 1 = Some 80.
Proof.
  intros component'.
  destruct (capital_cost_only "generators" sample_rates 0.07
              sample_generators) as (Hi & _ & Hc & Hrows & _).
  split; [exact Hi|]. split.
  - unfold component'. rewrite Hc by done.
    unfold sample_generators. cbn [df_columns]. by rewrite lookup_insert_eq.
  - apply (Hrows sample_generators_ok sample_rates_ok
             [SStr "DE"; SStr "FR"] 1%nat (SStr "FR") 80 sample_derived
             eq_refl sample_adjustment_FR).
    unfold num_at, sample_generators. cbn [df_columns].
    rewrite lookup_insert_ne by done. by rewrite lookup_singleton_eq.
Defined.

(** ** The district-heating projection *)

Lemma zip_with_fmap_same {A B C D} (f : B -> C -> D) (g : A -> B) (h : A -> C)
    (l : list A) :
  zip_with f (g <$> l) (h <$> l) = (fun x => f (g x) (h x)) <$> l.
Proof. induction l as [|x l IH]; csimpl; [done|]. by rewrite IH. Qed.

Lemma groupby_sum_default (pop_layout : list pop_row) (c : string) :
  default 0 (groupby_sum (ct <$> pop_layout) (urban <$> pop_layout) !! c)
  = country_urban pop_layout c.
Proof.
  unfold groupby_sum, country_urban.
  induction pop_layout as [|r pop IH]; [done|].
  rewrite !fmap_cons. cbn [zip_with foldr fst snd].
  rewrite filter_cons. destruct (decide (ct r = c)) as [<-|Hne].
  - rewrite lookup_insert_eq. cbn [default].
    rewrite fmap_cons. cbn [foldr]. by rewrite IH.
  - rewrite lookup_insert_ne by done. exact IH.
Qed.

(** Every country of the layout is a key of [ct_urban]. *)
Lemma ct_urban_lookup (pop_layout : list pop_row) (r : pop_row) :
  r ∈ pop_layout ->
  groupby_sum (ct <$> pop_layout) (urban <$> pop_layout) !! ct r
  = Some (country_urban pop_layout (ct r)).
Proof.
  intros Hin.
  assert (is_Some (groupby_sum (ct <$> pop_layout) (urban <$> pop_layout)
                     !! ct r)) as [v Hv].
  { unfold groupby_sum. induction Hin as [r pop|r r' pop Hin IH].
    - rewrite !fmap_cons. cbn [zip_with foldr fst snd].
      rewrite lookup_insert_eq. eauto.
    - rewrite !fmap_cons. cbn [zip_with foldr fst snd].
      destruct (decide (ct r' = ct r)) as [->|Hne].
      + rewrite lookup_insert_eq. eauto.
      + by rewrite lookup_insert_ne. }
  rewrite Hv. f_equal. rewrite <- groupby_sum_default. by rewrite Hv.
Qed.

Section Resolution.

Context {St : Type}.
Variable pop_layout : list pop_row.

Lemma uncovered_countries_empty (d : gmap string R) :
  uncovered_countries pop_layout d = ∅ <->
  forall r, r ∈ pop_layout -> is_Some (d !! ct r).
Proof.
  unfold uncovered_countries. split.
  - intros He r Hr. apply elem_of_dom.
    destruct (decide (ct r ∈ dom d)) as [|Hn]; [done|].
    assert (ct r ∈ (list_to_set (ct <$> pop_layout) ∖ dom d : gset string))
      as Hin.
    { apply elem_of_difference. split; [|done].
      apply elem_of_list_to_set, list_elem_of_fmap. eauto. }
    rewrite He in Hin. by apply not_elem_of_empty in Hin.
  - intros Hall. apply leibniz_equiv, elem_of_equiv_empty. intros c Hc.
    apply elem_of_difference in Hc as [Hc Hn].
    apply elem_of_list_to_set, list_elem_of_fmap in Hc as (r & -> & Hr).
    apply Hn, elem_of_dom. by apply Hall.
Qed.

Lemma resolve_scalar (x : R) (st : St) :
  resolve_central_fraction pop_layout (PotentialScalar x) st
  = (Ok (CFScalar x), st, []).
Proof. reflexivity. Qed.

Lemma resolve_all_covered (d : gmap string R) (st : St) :
  (forall r, r ∈ pop_layout -> is_Some (d !! ct r)) ->
  resolve_central_fraction pop_layout (PotentialDict d) st
  = (Ok (CFSeries (node_ceiling (PotentialDict d) <$> pop_layout)), st, []).
Proof.
  intros Hall. unfold resolve_central_fraction.
  rewrite decide_True by (by apply uncovered_countries_empty).
  munfold. do 4 f_equal. unfold series_map.
  rewrite <- list_fmap_compose. apply Forall_fmap_ext_1, Forall_forall.
  intros r Hr. simpl. by destruct (Hall r Hr) as [x ->].
Qed.

Lemma resolve_with_default (d : gmap string R) (v : R) (st : St) :
  d !! "default"%string = Some v ->
  ~ (forall r, r ∈ pop_layout -> is_Some (d !! ct r)) ->
  resolve_central_fraction pop_layout (PotentialDict d) st
  = (Ok (CFSeries (node_ceiling (PotentialDict d) <$> pop_layout)), st,
     [WarnDefaultPotential v]).
Proof.
  intros Hv Hnot. unfold resolve_central_fraction.
  rewrite decide_False
    by (intros He; apply Hnot; by apply uncovered_countries_empty).
  rewrite Hv. munfold. do 4 f_equal. unfold series_map.
  rewrite <- list_fmap_compose. apply Forall_fmap_ext_1, Forall_forall.
  intros r Hr. simpl. rewrite Hv. cbn [default].
  destruct (d !! ct r) as [x|] eqn:Ex.
  - rewrite lookup_union_r; [by rewrite Ex|].
    apply lookup_gset_to_gmap_None. intros Hin.
    unfold uncovered_countries in Hin.
    apply elem_of_difference in Hin as [_ Hn]. apply Hn, elem_of_dom. eauto.
  - erewrite lookup_union_Some_l; [done|].
    apply lookup_gset_to_gmap_Some. split; [|done].
    unfold uncovered_countries. apply elem_of_difference. split.
    + apply elem_of_list_to_set, list_elem_of_fmap. eauto.
    + intros Hin. apply elem_of_dom in Hin as [? ?]. congruence.
Qed.

Lemma resolve_no_default (d : gmap string R) (st : St) :
  d !! "default"%string = None ->
  ~ (forall r, r ∈ pop_layout -> is_Some (d !! ct r)) ->
  resolve_central_fraction pop_layout (PotentialDict d) st
  = (Raise ValueError, st, []).
Proof.
  intros Hv Hnot. unfold resolve_central_fraction.
  rewrite decide_False
    by (intros He; apply Hnot; by apply uncovered_countries_empty).
  rewrite Hv. reflexivity.
Qed.

(** After the resolution every country of the layout has its ceiling. *)
Lemma central_fraction_covers (potential : potential) (st : St) :
  potential_covers pop_layout potential ->
  exists cf l,
    resolve_central_fraction pop_layout potential st = (Ok cf, st, l)
    /\ forall (F : pop_row -> R),
         mul_central (F <$> pop_layout) cf
         = (fun r => F r * node_ceiling potential r) <$> pop_layout.
Proof.
  destruct potential as [x|d]; cbn [potential_covers].
  - intros _. eexists _, _. split; [apply resolve_scalar|].
    intros F. simpl. by rewrite <- list_fmap_compose.
  - intros Hcov.
    assert ((forall r, r ∈ pop_layout -> is_Some (d !! ct r))
            \/ ~ (forall r, r ∈ pop_layout -> is_Some (d !! ct r)))
      as [Hall|Hnot].
    { rewrite <- uncovered_countries_empty.
      destruct (decide (uncovered_countries pop_layout d = ∅)); eauto. }
    + eexists _, _. split; [by apply resolve_all_covered|].
      intros F. simpl. apply zip_with_fmap_same.
    + destruct Hcov as [[v Hv]|Hall]; [|done].
      eexists _, _. split; [by apply (resolve_with_default d v)|].
      intros F. simpl. apply zip_with_fmap_same.
Qed.

End Resolution.

Section ProjectionRun.

Context {Schedule St : Type} (get : Schedule -> Z -> R).
Variable pop_layout : list pop_row.
Variable historical : gmap string R.

Lemma nodal_share_eq :
  reindex_fillna0 historical (ct <$> pop_layout)
  = node_share historical <$> pop_layout.
Proof. unfold reindex_fillna0. by rewrite <- list_fmap_compose. Qed.

Lemma urban_ct_fraction_eq :
  zip_with Rdiv (urban <$> pop_layout)
    (series_map (groupby_sum (ct <$> pop_layout) (urban <$> pop_layout))
                (ct <$> pop_layout))
  = node_urban_ct_fraction pop_layout <$> pop_layout.
Proof.
  unfold series_map. rewrite <- list_fmap_compose, zip_with_fmap_same.
  apply Forall_fmap_ext_1, Forall_forall. intros r _.
  unfold node_urban_ct_fraction. simpl. by rewrite groupby_sum_default.
Qed.

Lemma urban_fraction_eq :
  zip_with Rdiv (urban <$> pop_layout)
    (zip_with Rplus (rural <$> pop_layout) (urban <$> pop_layout))
  = node_urban_fraction <$> pop_layout.
Proof.
  rewrite !zip_with_fmap_same.
  apply Forall_fmap_ext_1, Forall_forall. intros r _.
  unfold node_urban_fraction. simpl. by rewrite (Rplus_comm (rural r)).
Qed.

Lemma dist_fraction_eq :
  zip_with Rdiv
    (zip_with Rmult (node_share historical <$> pop_layout)
                    (node_urban_ct_fraction pop_layout <$> pop_layout))
    (fraction <$> pop_layout)
  = node_dist_fraction pop_layout historical <$> pop_layout.
Proof.
  rewrite !zip_with_fmap_same. reflexivity.
Qed.

(** The whole projection when the potential covers the layout. *)
Lemma build_run (potential : potential) (progress_config : Schedule)
    (investment_year : Z) (st : St) :
  potential_covers pop_layout potential ->
  let progress := get progress_config investment_year in
  let projected :=
    node_projected pop_layout historical potential progress <$> pop_layout in
  exists l,
    build_district_heat_share get pop_layout historical potential
      progress_config investment_year st
    = (Ok (mkDataFrame (node <$> pop_layout)
             (<["original district heat share"%string :=
                  NumCol (node_share historical <$> pop_layout)]>
                (<["district fraction of node"%string := NumCol projected]>
                   {["urban fraction"%string :=
                       NumCol (node_urban_final pop_layout historical
                                 <$> pop_layout)]}))),
       st, l ++ [InfoProgress progress (mean projected)]).
Proof.
  intros Hcov progress projected.
  destruct (central_fraction_covers pop_layout potential st Hcov)
    as (cf & l & Hres & Hmul).
  exists l. unfold build_district_heat_share. cbv zeta.
  unfold mbind at 1. unfold M_bind at 1. rewrite Hres.
  rewrite nodal_share_eq, urban_ct_fraction_eq, urban_fraction_eq,
    dist_fraction_eq.
  rewrite (zip_with_fmap_same Rmax), Hmul, zip_with_fmap_same.
  unfold clip_lower. rewrite <- !list_fmap_compose, zip_with_fmap_same.
  munfold. reflexivity.
Qed.

Lemma build_run_rows (potential : potential) (progress_config : Schedule)
    (investment_year : Z) (st : St) :
  potential_covers pop_layout potential ->
  exists l df,
    build_district_heat_share get pop_layout historical potential
      progress_config investment_year st = (Ok df, st, l)
    /\ df_index df = node <$> pop_layout
    /\ forall i r, pop_layout !! i = Some r ->
         num_at df "original district heat share" i
           = Some (node_share historical r)
         /\ num_at df "district fraction of node" i
              = Some (node_projected pop_layout historical potential
                        (get progress_config investment_year) r)
         /\ num_at df "urban fraction" i
              = Some (node_urban_final pop_layout historical r).
Proof.
  intros Hcov.
  destruct (build_run potential progress_config investment_year st Hcov)
    as [l Hrun].
  eexists _, _. split; [exact Hrun|]. split; [done|].
  intros i r Hr. unfold num_at. cbn [df_columns].
  rewrite lookup_insert_eq.
  rewrite lookup_insert_ne by done. rewrite lookup_insert_eq.
  rewrite !lookup_insert_ne by done. rewrite lookup_singleton_eq.
  rewrite !list_lookup_fmap, Hr. done.
Qed.

End ProjectionRun.

(** *** The claims on the projection *)

(** C2. When the potential covers the layout the projection succeeds and,
    for every node: the broadcast historical share is the share of the
    node's country, 0 for a country the historical table lacks;
    [dist_fraction_node] is that share times [urban_ct_fraction] over the
    node's [fraction]; the final urban fraction is the larger of the urban
    fraction and [dist_fraction_node]; [diff] is the larger of 0 and final
    urban fraction times ceiling minus [dist_fraction_node]; and the
    projected share is [dist_fraction_node + diff * progress]. *)
Theorem district_heat_projection_spec {Schedule St : Type}
    (get : Schedule -> Z -> R) (pop_layout : list pop_row)
    (historical : gmap string R) (potential : potential)
    (progress_config : Schedule) (investment_year : Z) (st : St)
    (Hcov : potential_covers pop_layout potential) :
  exists l df,
    build_district_heat_share get pop_layout historical potential
      progress_config investment_year st = (Ok df, st, l)
    /\ df_index df = node <$> pop_layout
    /\ forall i r, pop_layout !! i = Some r ->
         let share := default 0 (historical !! ct r) in
         let urban_ct_fraction := urban r / country_urban pop_layout (ct r) in
         let dist_fraction_node := share * urban_ct_fraction / fraction r in
         let urban_fraction :=
           Rmax (urban r / (urban r + rural r)) dist_fraction_node in
         let diff :=
           Rmax 0 (urban_fraction * node_ceiling potential r
                   - dist_fraction_node) in
         let progress := get progress_config investment_year in
         num_at df "original district heat share" i = Some share
         /\ (historical !! ct r = None -> share = 0 /\ dist_fraction_node = 0)
         /\ num_at df "urban fraction" i = Some urban_fraction
         /\ num_at df "district fraction of node" i
            = Some (dist_fraction_node + diff * progress).
Proof.
  destruct (build_run_rows get pop_layout historical potential progress_config
              investment_year st Hcov) as (l & df & Hrun & Hidx & Hrows).
  exists l, df. split; [exact Hrun|]. split; [exact Hidx|].
  intros i r Hr. cbv zeta.
  destruct (Hrows i r Hr) as (Ho & Hd & Hu).
  split; [exact Ho|]. split; [|split; [exact Hu|exact Hd]].
  intros ->. cbn [default]. split; [done|]. unfold Rdiv. ring.
Qed.

Lemma sample_country_urban : country_urban sample_pop_layout "DE" = 100.
Proof.
  unfold country_urban, sample_pop_layout.
  rewrite !filter_cons_True by done. rewrite filter_nil.
  rewrite !fmap_cons. cbn [foldr urban]. rewrite fmap_nil. cbn [foldr]. lra.
Defined.

Lemma sample_node0_dist :
  node_dist_fraction sample_pop_layout sample_historical
    (mkPopRow "DE0" "DE" 60 40 0.5) = 0.48.
Proof.
  unfold node_dist_fraction, node_share, node_urban_ct_fraction.
  cbn [ct urban fraction]. rewrite sample_country_urban.
  unfold sample_historical. rewrite lookup_singleton_eq.
  cbn [default]. unfold Datatypes.id. lra.
Defined.

Lemma sample_node0_urban_final :
  node_urban_final sample_pop_layout sample_historical
    (mkPopRow "DE0" "DE" 60 40 0.5) = 0.6.
Proof.
  unfold node_urban_final. rewrite sample_node0_dist.
  unfold node_urban_fraction. cbn [urban rural].
  replace (60 / (60 + 40)) with 0.6 by lra.
  unfold Rmax. destruct (Rle_dec _ _); lra.
Defined.

Lemma sample_node0_projected :
  node_projected sample_pop_layout sample_historical (PotentialScalar 0.5) 1
    (mkPopRow "DE0" "DE" 60 40 0.5) = 0.48.
Proof.
  unfold node_projected, node_diff.
  rewrite sample_node0_dist, sample_node0_urban_final. cbn [node_ceiling].
  unfold Rmax. destruct (Rle_dec _ _); lra.
Defined.

Lemma district_heat_projection_spec_witness :
  exists l df,
    build_district_heat_share (fun (_ : unit) (_ : Z) => 1) sample_pop_layout
      sample_historical (PotentialScalar 0.5) tt 2050%Z tt = (Ok df, tt, l)
    /\ num_at df "original district heat share" 0 = Some 0.4
    /\ num_at df "urban fraction" 0 = Some 0.6
    /\ num_at df "district fraction of node" 0 = Some 0.48.
Proof.
  destruct (district_heat_projection_spec (fun (_ : unit) (_ : Z) => 1)
              sample_pop_layout sample_historical (PotentialScalar 0.5)
              tt 2050%Z tt I) as (l & df & Hrun & _ & Hrows).
  exists l, df. split; [exact Hrun|].
  destruct (Hrows 0%nat (mkPopRow "DE0" "DE" 60 40 0.5) eq_refl)
    as (Ho & _ & Hu & Hd).
  cbv zeta in Ho, Hu, Hd. split; [|split].
  - rewrite Ho. reflexivity.
  - rewrite Hu. f_equal; apply sample_node0_urban_final.
  - rewrite Hd. f_equal; apply sample_node0_projected.
Defined.

(** C3. A mapping that leaves out a country of the layout and has no
    [default] makes the projection raise [ValueError] before anything is
    logged or returned; with a [default] the ceiling of every left-out
    country is the default, the other countries keep their entry, and a
    warning with the default is logged; a number is the ceiling of every
    node. *)
Theorem potential_resolution_spec {Schedule St : Type}
    (get : Schedule -> Z -> R) (pop_layout : list pop_row)
    (historical : gmap string R) (progress_config : Schedule)
    (investment_year : Z) (st : St) :
  (forall d r0,
     r0 ∈ pop_layout -> d !! ct r0 = None -> d !! "default"%string = None ->
     resolve_central_fraction pop_layout (PotentialDict d) st
       = (Raise ValueError, st, [])
     /\ build_district_heat_share get pop_layout historical (PotentialDict d)
          progress_config investment_year st
        = (Raise ValueError, st, []))
  /\ (forall d r0 v,
        r0 ∈ pop_layout -> d !! ct r0 = None -> d !! "default"%string = Some v ->
        exists cs,
          resolve_central_fraction pop_layout (PotentialDict d) st
            = (Ok (CFSeries cs), st, [WarnDefaultPotential v])
          /\ forall i r, pop_layout !! i = Some r ->
               cs !! i = Some (match d !! ct r with
                               | Some x => x
                               | None => v
                               end))
  /\ (forall x,
        resolve_central_fraction pop_layout (PotentialScalar x) st
          = (Ok (CFScalar x), st, [])
        /\ forall xs i u, xs !! i = Some u ->
             mul_central xs (CFScalar x) !! i = Some (u * x)).
Proof.
  split; [|split].
  - intros d r0 Hin Hnone Hdef.
    assert (Hres : resolve_central_fraction pop_layout (PotentialDict d) st
                   = (Raise ValueError, st, [])).
    { apply resolve_no_default; [done|]. intros Hall.
      destruct (Hall r0 Hin) as [? ?]. congruence. }
    split; [exact Hres|].
    unfold build_district_heat_share. cbv zeta.
    unfold mbind at 1. unfold M_bind at 1. by rewrite Hres.
  - intros d r0 v Hin Hnone Hdef. eexists. split.
    + apply (resolve_with_default pop_layout d v st Hdef). intros Hall.
      destruct (Hall r0 Hin) as [? ?]. congruence.
    + intros i r Hr. rewrite list_lookup_fmap, Hr. simpl.
      by rewrite Hdef.
  - intros x. split; [reflexivity|]. intros xs i u Hu. simpl.
    by rewrite list_lookup_fmap, Hu.
Qed.

Lemma potential_resolution_spec_witness :
  let d : gmap string R := {["DE"%string := 0.5]} in
  let pop_layout := [mkPopRow "DE0" "DE" 60 40 0.5;
                     mkPopRow "FR0" "FR" 50 50 1] in
  build_district_heat_share (fun (_ : unit) (_ : Z) => 1) pop_layout
    sample_historical (PotentialDict d) tt 2050%Z tt
  = (Raise ValueError, tt, []).
Proof.
  intros d pop_layout.
  destruct (potential_resolution_spec (fun (_ : unit) (_ : Z) => 1)
              pop_layout sample_historical tt 2050%Z tt) as [Hraise _].
  apply (Hraise d (mkPopRow "FR0" "FR" 50 50 1)).
  - unfold pop_layout. apply list_elem_of_further, list_elem_of_here.
  - unfold d. by rewrite lookup_singleton_ne.
  - unfold d. by rewrite lookup_singleton_ne.
Defined.

(** C7, as stated, fails on the scenario of the specification: the first
    node starts at a share of 0.48, above its urban fraction 0.6 times the
    ceiling 0.5, and stays there. *)
Lemma projected_share_above_ceiling :
  exists l df,
    build_district_heat_share (fun (_ : unit) (_ : Z) => 1) sample_pop_layout
      sample_historical (PotentialScalar 0.5) tt 2050%Z tt = (Ok df, tt, l)
    /\ num_at df "district fraction of node" 0 = Some 0.48
    /\ num_at df "urban fraction" 0 = Some 0.6
    /\ ~ (0.48 <= 0.6 * 0.5).
Proof.
  destruct (build_run_rows (fun (_ : unit) (_ : Z) => 1) sample_pop_layout
              sample_historical (PotentialScalar 0.5) tt 2050%Z tt I)
    as (l & df & Hrun & _ & Hrows).
  exists l, df. split; [exact Hrun|].
  destruct (Hrows 0%nat (mkPopRow "DE0" "DE" 60 40 0.5) eq_refl)
    as (_ & Hd & Hu).
  rewrite sample_node0_projected in Hd.
  rewrite sample_node0_urban_final in Hu.
  split; [exact Hd|]. split; [exact Hu|]. lra.
Qed.

Lemma node_projected_bound (pop_layout : list pop_row)
    (historical : gmap string R) (potential : potential) (progress : R)
    (r : pop_row) :
  progress <= 1 ->
  node_projected pop_layout historical potential progress r
  <= Rmax (node_dist_fraction pop_layout historical r)
          (node_urban_final pop_layout historical r * node_ceiling potential r).
Proof.
  intros Hp. unfold node_projected, node_diff.
  set (d := node_dist_fraction pop_layout historical r).
  set (uc := node_urban_final pop_layout historical r * node_ceiling potential r).
  unfold Rmax. destruct (Rle_dec 0 (uc - d)), (Rle_dec d uc); nra.
Qed.

(** C7, as the code has it.  With a progress of at most 1 the projected
    share of a node never exceeds the larger of its initial
    [dist_fraction_node] and its final urban fraction times the ceiling;
    it stays below final urban fraction times ceiling wherever the initial
    [dist_fraction_node] does. *)
Theorem projected_share_bound {Schedule St : Type}
    (get : Schedule -> Z -> R) (pop_layout : list pop_row)
    (historical : gmap string R) (potential : potential)
    (progress_config : Schedule) (investment_year : Z) (st : St)
    (Hcov : potential_covers pop_layout potential)
    (Hprogress : get progress_config investment_year <= 1) :
  exists l df,
    build_district_heat_share get pop_layout historical potential
      progress_config investment_year st = (Ok df, st, l)
    /\ forall i r, pop_layout !! i = Some r ->
         exists share urban_final,
           num_at df "district fraction of node" i = Some share
           /\ num_at df "urban fraction" i = Some urban_final
           /\ share <= Rmax (node_dist_fraction pop_layout historical r)
                            (urban_final * node_ceiling potential r)
           /\ (node_dist_fraction pop_layout historical r
                 <= urban_final * node_ceiling potential r ->
               share <= urban_final * node_ceiling potential r).
Proof.
  destruct (build_run_rows get pop_layout historical potential progress_config
              investment_year st Hcov) as (l & df & Hrun & _ & Hrows).
  exists l, df. split; [exact Hrun|]. intros i r Hr.
  destruct (Hrows i r Hr) as (_ & Hd & Hu).
  eexists _, _. split; [exact Hd|]. split; [exact Hu|].
  pose proof (node_projected_bound pop_layout historical potential _ r
                Hprogress) as Hb.
  split; [exact Hb|]. intros Hle.
  rewrite Rmax_right in Hb by done. exact Hb.
Qed.

Lemma projected_share_bound_witness :
  exists l df,
    build_district_heat_share (fun (_ : unit) (_ : Z) => 1) sample_pop_layout
      sample_historical (PotentialScalar 0.5) tt 2050%Z tt = (Ok df, tt, l)
    /\ exists share urban_final,
         num_at df "district fraction of node" 0 = Some share
         /\ num_at df "urban fraction" 0 = Some urban_final
         /\ share <= Rmax 0.48 (urban_final * 0.5).
Proof.
  destruct (projected_share_bound (fun (_ : unit) (_ : Z) => 1)
              sample_pop_layout sample_historical (PotentialScalar 0.5)
              tt 2050%Z tt I ltac:(lra)) as (l & df & Hrun & Hrows).
  exists l, df. split; [exact Hrun|].
  destruct (Hrows 0%nat (mkPopRow "DE0" "DE" 60 40 0.5) eq_refl)
    as (share & urban_final & Hs & Hu & Hb & _).
  exists share, urban_final. split; [exact Hs|]. split; [exact Hu|].
  rewrite sample_node0_dist in Hb. exact Hb.
Defined.

(** C9. With the layout, the historical shares, the potential and the
    investment year fixed, a larger progress factor gives every node a
    projected share that is at least as large. *)
Theorem projection_monotone_in_progress {Schedule St : Type}
    (get : Schedule -> Z -> R) (pop_layout : list pop_row)
    (historical : gmap string R) (potential : potential)
    (progress_config1 progress_config2 : Schedule) (investment_year : Z)
    (st : St)
    (Hcov : potential_covers pop_layout potential)
    (Hle : get progress_config1 investment_year
           <= get progress_config2 investment_year) :
  exists l1 df1 l2 df2,
    build_district_heat_share get pop_layout historical potential
      progress_config1 investment_year st = (Ok df1, st, l1)
    /\ build_district_heat_share get pop_layout historical potential
         progress_config2 investment_year st = (Ok df2, st, l2)
    /\ forall i r, pop_layout !! i = Some r ->
         exists share1 share2,
           num_at df1 "district fraction of node" i = Some share1
           /\ num_at df2 "district fraction of node" i = Some share2
           /\ share1 <= share2.
Proof.
  destruct (build_run_rows get pop_layout historical potential
              progress_config1 investment_year st Hcov)
    as (l1 & df1 & Hrun1 & _ & Hrows1).
  destruct (build_run_rows get pop_layout historical potential
              progress_config2 investment_year st Hcov)
    as (l2 & df2 & Hrun2 & _ & Hrows2).
  exists l1, df1, l2, df2. split; [exact Hrun1|]. split; [exact Hrun2|].
  intros i r Hr.
  destruct (Hrows1 i r Hr) as (_ & Hd1 & _).
  destruct (Hrows2 i r Hr) as (_ & Hd2 & _).
  eexists _, _. split; [exact Hd1|]. split; [exact Hd2|].
  unfold node_projected.
  assert (0 <= node_diff pop_layout historical potential r)
    by apply Rmax_l.
  nra.
Qed.

Lemma projection_monotone_in_progress_witness :
  exists l1 df1 l2 df2,
    build_district_heat_share (fun (p : R) (_ : Z) => p) sample_pop_layout
      sample_historical (PotentialScalar 0.5) 0.2 2050%Z tt = (Ok df1, tt, l1)
    /\ build_district_heat_share (fun (p : R) (_ : Z) => p) sample_pop_layout
         sample_historical (PotentialScalar 0.5) 0.7 2050%Z tt
       = (Ok df2, tt, l2)
    /\ exists share1 share2,
         num_at df1 "district fraction of node" 1 = Some share1
         /\ num_at df2 "district fraction of node" 1 = Some share2
         /\ share1 <= share2.
Proof.
  destruct (projection_monotone_in_progress (fun (p : R) (_ : Z) => p)
              sample_pop_layout sample_historical (PotentialScalar 0.5)
              0.2 0.7 2050%Z tt I ltac:(lra))
    as (l1 & df1 & l2 & df2 & Hrun1 & Hrun2 & Hrows).
  exists l1, df1, l2, df2. split; [exact Hrun1|]. split; [exact Hrun2|].
  apply (Hrows 1%nat (mkPopRow "DE1" "DE" 40 60 0.5)). reflexivity.
Defined.

(** * Further properties of the code *)

(** ** The batch resolvers *)

Lemma first_occurrences_from_NoDup (acc keys : list string) :
  NoDup acc ->
  NoDup (foldl (fun acc k => if decide (k ∈ acc) then acc else acc ++ [k])
               acc keys).
Proof.
  revert acc. induction keys as [|k keys IH]; intros acc Hnd; [done|].
  cbn [foldl]. apply IH. destruct (decide (k ∈ acc)); [done|].
  apply NoDup_app. split; [done|]. split; [|apply NoDup_singleton].
  intros x Hx ->%list_elem_of_singleton. done.
Qed.

Lemma first_occurrences_from_elem (acc keys : list string) (x : string) :
  x ∈ foldl (fun acc k => if decide (k ∈ acc) then acc else acc ++ [k])
            acc keys
  <-> x ∈ acc \/ x ∈ keys.
Proof.
  revert acc. induction keys as [|k keys IH]; intros acc.
  - cbn [foldl]. rewrite elem_of_nil. tauto.
  - cbn [foldl]. rewrite IH, elem_of_cons.
    destruct (decide (k ∈ acc)) as [Hin|Hnot].
    + split; [tauto|]. intros [?|[->|?]]; tauto.
    + rewrite elem_of_app, list_elem_of_singleton. tauto.
Qed.

Lemma first_occurrences_from_id (acc keys : list string) :
  NoDup (acc ++ keys) ->
  foldl (fun acc k => if decide (k ∈ acc) then acc else acc ++ [k]) acc keys
  = acc ++ keys.
Proof.
  revert acc. induction keys as [|k keys IH]; intros acc Hnd.
  - by rewrite app_nil_r.
  - cbn [foldl]. rewrite decide_False.
    + rewrite IH; rewrite <- app_assoc; done.
    + apply NoDup_app in Hnd as (_ & Hdis & _). intros Hin.
      apply (Hdis k Hin). left.
Qed.

Lemma dict_setitem_same {V} (f : string -> V) (ks : list string) (k : string) :
  dict_setitem k (f k) ((fun c => (c, f c)) <$> ks)
  = (fun c => (c, f c)) <$> (if decide (k ∈ ks) then ks else ks ++ [k]).
Proof.
  unfold dict_setitem. rewrite <- list_fmap_compose.
  change (fst ∘ (fun c => (c, f c))) with (@Datatypes.id string).
  rewrite list_fmap_id.
  destruct (decide (k ∈ ks)) as [Hin|Hnot].
  - rewrite <- list_fmap_compose. apply Forall_fmap_ext_1, Forall_forall.
    intros c _. simpl. destruct (decide (c = k)) as [->|]; done.
  - by rewrite fmap_app.
Qed.

Lemma series_loop {St} (cfg : costs_config) (countries ks : list string)
    (st : St) :
  exists l,
    for_each (series_step cfg) ((fun c => (c, resolved_rate cfg c)) <$> ks)
             countries st
    = (Ok ((fun c => (c, resolved_rate cfg c)) <$>
             foldl (fun acc k => if decide (k ∈ acc) then acc else acc ++ [k])
                   ks countries),
       st, l)
    /\ length l = length countries.
Proof.
  revert ks. induction countries as [|c cs IH]; intros ks.
  - exists []. done.
  - cbn [for_each foldl]. unfold mbind at 1. unfold M_bind at 1.
    unfold series_step at 1. munfold.
    destruct (get_country_discount_rate_resolve c cfg st) as [ev ->].
    fold (resolved_rate cfg c).
    rewrite (dict_setitem_same (resolved_rate cfg)).
    destruct (IH (if decide (c ∈ ks) then ks else ks ++ [c])) as (l & -> & Hl).
    eexists. split; [reflexivity|]. simpl. by rewrite Hl.
Qed.

(** X1. The series of the rates of a list of countries has one entry per
    distinct country, in the order of first occurrence (the list itself
    when no country is repeated), each with the country's resolved rate;
    the call never raises and logs one record per element of the list. *)
Theorem country_rates_series_spec {St} (countries : list string)
    (cfg : costs_config) (st : St) :
  exists l,
    get_country_discount_rates_series countries cfg st
    = (Ok ((fun c => (c, resolved_rate cfg c)) <$> first_occurrences countries),
       st, l)
    /\ length l = length countries
    /\ NoDup (first_occurrences countries)
    /\ (forall c, c ∈ first_occurrences countries <-> c ∈ countries)
    /\ (NoDup countries -> first_occurrences countries = countries).
Proof.
  destruct (series_loop cfg countries [] st) as (l & Hrun & Hl).
  exists (l ++ []). unfold get_country_discount_rates_series. cbv zeta.
  unfold mbind, M_bind. change (@nil (string * R))
    with ((fun c => (c, resolved_rate cfg c)) <$> @nil string) at 1.
  rewrite Hrun. unfold mret, M_ret. split; [reflexivity|].
  rewrite app_nil_r. split; [exact Hl|]. unfold first_occurrences.
  split; [apply first_occurrences_from_NoDup, NoDup_nil_2|]. split.
  - intros c. rewrite first_occurrences_from_elem, elem_of_nil. tauto.
  - intros Hnd. by apply (first_occurrences_from_id []).
Qed.

Lemma country_rates_series_spec_witness :
  exists l,
    get_country_discount_rates_series ["DE"; "UA"; "DE"]%string
      (mkCostsConfig (Some {["UA"%string := 0.1]}) (Some 0.07)) tt
    = (Ok [("DE"%string, 0.07); ("UA"%string, 0.1)], tt, l)
    /\ length l = 3%nat.
Proof.
  destruct (country_rates_series_spec ["DE"; "UA"; "DE"]%string
              (mkCostsConfig (Some {["UA"%string := 0.1]}) (Some 0.07)) tt)
    as (l & Hrun & Hl & _).
  exists l. split; [exact Hrun|exact Hl].
Defined.

Lemma dict_setitem_fresh {V} (k : string) (v : V) (d : ordered_dict V) :
  k ∉ d.*1 -> dict_setitem k v d = d ++ [(k, v)].
Proof. intros Hk. unfold dict_setitem. by rewrite decide_False. Qed.

Lemma nodal_loop {St} (cfg : costs_config) (ids countries : list string)
    (acc : ordered_dict R) (st : St) :
  length countries = length ids ->
  NoDup (acc.*1 ++ ids) ->
  exists l,
    for_each (nodal_step cfg) acc (zip ids countries) st
    = (Ok (acc ++ zip_with (fun b c => (b, resolved_rate cfg c)) ids countries),
       st, l)
    /\ length l = length ids.
Proof.
  revert countries acc. induction ids as [|b ids IH];
    intros [|c cs] acc Hlen Hnd; try done.
  - exists []. simpl. by rewrite app_nil_r.
  - injection Hlen as Hlen.
    change (zip (b :: ids) (c :: cs)) with ((b, c) :: zip ids cs).
    cbn [for_each zip_with]. unfold mbind at 1. unfold M_bind at 1.
    unfold nodal_step at 1. munfold.
    destruct (get_country_discount_rate_resolve c cfg st) as [ev ->].
    fold (resolved_rate cfg c).
    rewrite dict_setitem_fresh.
    2: { apply NoDup_app in Hnd as (_ & Hdis & _). intros Hin.
         apply (Hdis b Hin). left. }
    destruct (IH cs (acc ++ [(b, resolved_rate cfg c)]) Hlen) as (l & -> & Hl).
    { rewrite fmap_app, <- app_assoc. exact Hnd. }
    eexists. split; [by rewrite <- app_assoc|]. simpl. by rewrite Hl.
Qed.

(** X2. For buses with a [country] column and unique names the nodal rates
    are, bus by bus in the order of the table, the resolved rate of the
    bus's country; the prefix of the bus name is not consulted.  For buses
    without the column the call raises [AttributeError] before it resolves
    or logs anything. *)
Theorem nodal_discount_rates_spec {St} (network_buses : bus_table)
    (cfg : costs_config) (st : St) :
  (forall country,
     bus_country network_buses = Some country ->
     length country = length (bus_index network_buses) ->
     NoDup (bus_index network_buses) ->
     exists l,
       get_nodal_discount_rates network_buses cfg st
       = (Ok (zip_with (fun b c => (b, resolved_rate cfg c))
                       (bus_index network_buses) country), st, l)
       /\ length l = length (bus_index network_buses))
  /\ (bus_country network_buses = None ->
      get_nodal_discount_rates network_buses cfg st
      = (Raise AttributeError, st, [])).
Proof.
  split.
  - intros country Hc Hlen Hnd. unfold get_nodal_discount_rates.
    rewrite Hc. cbv zeta.
    destruct (nodal_loop cfg (bus_index network_buses) country [] st Hlen Hnd)
      as (l & Hrun & Hl).
    exists (l ++ []). unfold mbind, M_bind. rewrite Hrun.
    split; [reflexivity|]. by rewrite app_nil_r.
  - intros Hc. unfold get_nodal_discount_rates. by rewrite Hc.
Qed.

Lemma nodal_discount_rates_spec_witness :
  exists l,
    get_nodal_discount_rates
      (mkBusTable ["UA0 1"; "DE0 2"]%string (Some ["UA"; "FR"]%string))
      (mkCostsConfig (Some {["UA"%string := 0.1]}) (Some 0.07)) tt
    = (Ok [("UA0 1"%string, 0.1); ("DE0 2"%string, 0.07)], tt, l)
    /\ length l = 2%nat.
Proof.
  destruct (nodal_discount_rates_spec
              (mkBusTable ["UA0 1"; "DE0 2"]%string (Some ["UA"; "FR"]%string))
              (mkCostsConfig (Some {["UA"%string := 0.1]}) (Some 0.07)) tt)
    as [Hcol _].
  destruct (Hcol ["UA"; "FR"]%string eq_refl eq_refl) as (l & Hrun & Hl).
  { compute_done. }
  exists l. split; [exact Hrun|exact Hl].
Defined.

(** ** More on the cost expansion *)

Lemma concat_replicate_comm {A} (k : nat) (xs : list A) :
  concat (replicate k xs) ++ xs = xs ++ concat (replicate k xs).
Proof.
  induction k as [|k IH]; simpl; [by rewrite app_nil_r|].
  by rewrite <- app_assoc, IH.
Qed.

Lemma col_app_repeat (k : nat) (c : column) :
  col_app (col_repeat k c) c = Some (col_repeat (S k) c).
Proof.
  destruct c as [xs|xs]; simpl; by rewrite concat_replicate_comm.
Qed.

Lemma concat_columns_repeat (name : string) (objs : list (DataFrame string))
    (acc : gmap string column) (c : option column) (k : nat) :
  acc !! name = col_repeat k <$> c ->
  Forall (fun o => df_columns o !! name = c) objs ->
  foldl (fun acc obj => intersection_with col_app acc (df_columns obj))
        acc objs !! name
  = col_repeat (k + length objs) <$> c.
Proof.
  intros Hacc HF. revert acc k Hacc.
  induction HF as [|o os Ho _ IH]; intros acc k Hacc; simpl.
  - by rewrite Nat.add_0_r.
  - rewrite <- Nat.add_succ_comm. apply IH.
    rewrite lookup_intersection_with, Hacc, Ho.
    destruct c as [c|]; simpl; [|done]. apply col_app_repeat.
Qed.

Lemma country_table_other_column (costs : DataFrame string)
    (cfg : costs_config) (c name : string) :
  name <> "discount rate"%string -> name <> "country"%string ->
  df_columns (country_table costs cfg c) !! name = df_columns costs !! name.
Proof.
  intros H1 H2. unfold country_table, set_column_scalar. cbn [df_columns].
  by rewrite !lookup_insert_ne.
Qed.

Lemma apply_country_specific_costs_concat (costs : DataFrame string)
    (cfg : costs_config) (countries : list string) :
  (1 < length countries)%nat ->
  exists expanded l,
    apply_country_specific_costs countries cfg costs
      = (Ok (NewTable expanded), costs, l)
    /\ pd_concat (country_table costs cfg <$> countries) countries
       = Ok expanded.
Proof.
  intros Hlen. unfold apply_country_specific_costs.
  rewrite decide_True by done.
  destruct (country_costs_loop costs cfg countries []) as [l Hl].
  destruct (pd_concat_country_dfs costs cfg countries) as (expanded & Hc & _).
  { intros ->. simpl in Hlen. lia. }
  unfold mbind at 1. unfold M_bind at 1.
  rewrite Hl. rewrite app_nil_l. munfold. rewrite Hc.
  eexists _, _. split; reflexivity.
Qed.

(** X3. In the expanded cost table every column of the original table
    other than [discount rate] and [country] is the original column
    repeated once per country, and no other column appears; an empty list
    of countries makes the call raise [IndexError] with the caller's table
    untouched. *)
Theorem cost_expansion_columns (costs : DataFrame string)
    (countries : list string) (cfg : costs_config) :
  ((1 < length countries)%nat ->
   exists expanded l,
     apply_country_specific_costs countries cfg costs
       = (Ok (NewTable expanded), costs, l)
     /\ forall name,
          name <> "discount rate"%string -> name <> "country"%string ->
          df_columns expanded !! name
          = col_repeat (length countries) <$> (df_columns costs !! name))
  /\ (countries = [] ->
      apply_country_specific_costs countries cfg costs
        = (Raise IndexError, costs, [])).
Proof.
  split.
  - intros Hlen.
    destruct (apply_country_specific_costs_concat costs cfg countries Hlen)
      as (expanded & l & Hrun & Hc).
    exists expanded, l. split; [exact Hrun|]. intros name H1 H2.
    destruct countries as [|c0 cs]; [simpl in Hlen; lia|].
    rewrite fmap_cons in Hc. unfold pd_concat in Hc. injection Hc as <-.
    cbn [df_columns].
    rewrite (concat_columns_repeat name _ _ (df_columns costs !! name) 1).
    + rewrite length_fmap. done.
    + rewrite !lookup_insert_ne by done.
      destruct (df_columns costs !! name) as [[xs|xs]|]; simpl;
        by rewrite ?app_nil_r.
    + apply Forall_fmap, Forall_forall. intros c _. simpl.
      by apply country_table_other_column.
  - intros ->. reflexivity.
Qed.

Lemma cost_expansion_columns_witness :
  let costs := mkDataFrame ["solar"%string; "onwind"%string]
                 (<["lifetime"%string := NumCol [30; 25]]>
                    {["discount rate"%string := NumCol [0.07; 0.07]]}) in
  let cfg := mkCostsConfig (Some {["UA"%string := 0.1]}) (Some 0.07) in
  exists expanded l,
    apply_country_specific_costs ["UA"%string; "DE"%string] cfg costs
      = (Ok (NewTable expanded), costs, l)
    /\ df_columns expanded !! "lifetime"%string
       = Some (NumCol [30; 25; 30; 25]).
Proof.
  intros costs cfg.
  destruct (cost_expansion_columns costs ["UA"%string; "DE"%string] cfg)
    as [Hmulti _].
  destruct Hmulti as (expanded & l & Hrun & Hcols); [simpl; lia|].
  exists expanded, l. split; [exact Hrun|].
  rewrite (Hcols "lifetime"%string) by done.
  unfold costs. cbn [df_columns]. by rewrite lookup_insert_eq.
Defined.

(** ** More on the annuity factor *)

(** X4. The annuity factor has no value at lifetime zero, whatever the
    rate above -1, nor at rate -1, whatever positive lifetime: both calls
    raise [ZeroDivisionError]. *)
Theorem calculate_annuity_simple_raises (L r : R) :
  (-1 < r -> calculate_annuity_simple 0 r = Raise ZeroDivisionError)
  /\ (0 < L -> calculate_annuity_simple L (-1) = Raise ZeroDivisionError).
Proof.
  split.
  - intros Hr. unfold calculate_annuity_simple.
    destruct (decide (r = 0)) as [->|Hne].
    + unfold float_div. by rewrite decide_True.
    + unfold float_pow. rewrite decide_True by lra. munfold.
      rewrite Ropp_0, Rpower_O by lra.
      unfold float_div. by rewrite decide_True by lra.
  - intros HL. unfold calculate_annuity_simple.
    rewrite decide_False by lra. unfold float_pow.
    rewrite decide_False by lra. rewrite decide_True by lra.
    by rewrite decide_True by lra.
Qed.

Lemma calculate_annuity_simple_raises_witness :
  -1 < 0.07 /\ calculate_annuity_simple 0 0.07 = Raise ZeroDivisionError
  /\ 0 < 25 /\ calculate_annuity_simple 25 (-1) = Raise ZeroDivisionError.
Proof.
  destruct (calculate_annuity_simple_raises 25 0.07) as [H0 H1].
  split; [lra|]. split; [apply H0; lra|]. split; [lra|]. apply H1. lra.
Defined.

Lemma Rpower_neg_unit_interval (L x : R) :
  0 < L -> 1 < x -> 0 < Rpower x (- L) < 1.
Proof.
  intros HL Hx. split; [unfold Rpower; apply exp_pos|].
  pose proof (Rpower_neg_decr L 1 x HL ltac:(lra) Hx) as H.
  by rewrite Rpower_one in H.
Qed.

Lemma annuity_gt_rate (L r : R) : 0 < L -> 0 < r -> r < annuity L r.
Proof.
  intros HL Hr. unfold annuity. rewrite decide_False by lra.
  destruct (Rpower_neg_unit_interval L (1 + r) HL ltac:(lra)) as [Hp0 Hp1].
  set (p := Rpower (1 + r) (- L)) in *.
  apply (Rmult_lt_reg_r (1 - p)); [lra|].
  replace (r / (1 - p) * (1 - p)) with r by (field; lra). nra.
Qed.

Lemma annuity_gt_inv_lifetime (L r : R) :
  0 < L -> 0 < r -> 1 / L < annuity L r.
Proof.
  intros HL Hr. unfold annuity. rewrite decide_False by lra.
  destruct (Rpower_neg_unit_interval L (1 + r) HL ltac:(lra)) as [Hp0 Hp1].
  destruct (Rpower_secant L 1 (1 + r) HL ltac:(lra) ltac:(lra))
    as (c & Hc & E).
  rewrite Rpower_one in E.
  destruct (Rpower_neg_unit_interval (L + 1) c ltac:(lra) ltac:(lra))
    as [Hm0 Hm1].
  set (p := Rpower (1 + r) (- L)) in *.
  set (m := Rpower c (- (L + 1))) in *.
  assert (Hlt : 1 - p < L * r).
  { rewrite E. replace (1 + r - 1) with r by lra. nra. }
  apply (Rmult_lt_reg_r (L * (1 - p))); [apply Rmult_lt_0_compat; lra|].
  replace (1 / L * (L * (1 - p))) with (1 - p) by (field; lra).
  replace (r / (1 - p) * (L * (1 - p))) with (L * r) by (field; lra).
  exact Hlt.
Qed.

(** X5. At a lifetime between 1 and 40 years and a rate between 0.001 and
    1, where the rounding of the formula is far below the distances
    stated, the annuity factor exceeds both the rate itself and the
    factor the code returns at rate zero, which is [1 / lifetime]. *)
Theorem calculate_annuity_simple_bounds (L r : R)
    (HL : 1 <= L <= 40) (Hr : 0.001 <= r <= 1) :
  exists a,
    calculate_annuity_simple L r = Ok a
    /\ calculate_annuity_simple L 0 = Ok (1 / L)
    /\ r < a
    /\ 1 / L < a.
Proof.
  exists (annuity L r). rewrite !calculate_annuity_simple_annuity by lra.
  split; [done|]. split; [unfold annuity; by rewrite decide_True|].
  split; [apply annuity_gt_rate; lra|apply annuity_gt_inv_lifetime; lra].
Qed.

Lemma calculate_annuity_simple_bounds_witness :
  exists a,
    calculate_annuity_simple 25 0.07 = Ok a
    /\ 0.07 < a
    /\ 1 / 25 < a.
Proof.
  destruct (calculate_annuity_simple_bounds 25 0.07 ltac:(lra) ltac:(lra))
    as (a & Ha & _ & H1 & H2).
  exists a. split; [exact Ha|]. split; [exact H1|exact H2].
Defined.

(** ** More on the capital-cost adjustment *)

(** X6. With a global rate and country rates between 0.001 and 1 (away
    from the rates next to zero, where the rounded formula loses its
    order), an adjusted row with a [capital_cost] of at least 1e-300 (a
    positive cost that a product with the factor does not round back to
    itself) gets a strictly larger cost when its country's rate is above
    the global rate, and a strictly smaller but still positive cost when
    it is below. *)
Theorem adjustment_direction (component_name : string)
    (country_rates : gmap string R) (global_rate : R)
    (component : DataFrame string)
    (Hok : component_ok component)
    (Hg : 0.001 <= global_rate <= 1)
    (Hr : forall c r, country_rates !! c = Some r -> 0.001 <= r <= 1) :
  exists n l component' cs,
    _apply_to_component_improved component_name country_rates global_rate
      component = (Ok n, component', l)
    /\ derived_countries component = Some cs
    /\ forall i c r x,
         cs !! i = Some c ->
         rate_of country_rates c = Some r ->
         Rabs (r - global_rate) > 0.001 ->
         num_at component "capital_cost" i = Some x ->
         1e-300 <= x ->
         exists x',
           num_at component' "capital_cost" i = Some x'
           /\ (global_rate < r -> x < x')
           /\ (r < global_rate -> 0 < x' /\ x' < x).
Proof.
  assert (Hrates : rates_ok country_rates global_rate).
  { split; [lra|]. intros c r Hc. specialize (Hr c r Hc). lra. }
  destruct (component_ok_derived component Hok) as (cs & Hcs & Hlen).
  eexists _, _, _, cs.
  split; [apply (apply_to_component_run _ _ _ _ Hok Hrates)|].
  split; [exact Hcs|]. intros i c r x Hc Hrate Hfar Hx Hlow.
  assert (Hpos : 0 < x) by lra.
  exists (adjusted_cost country_rates global_rate c x).
  split; [by apply (adjusted_component_num_at _ _ _ cs)|].
  unfold adjusted_cost. rewrite adjustment_rate_of, Hrate.
  rewrite decide_True by done.
  assert (0.001 <= r <= 1)
    by (destruct c as [v|s]; [done|]; by apply (Hr s)).
  pose proof (annuity_pos 25 r ltac:(lra) ltac:(lra)) as Har.
  pose proof (annuity_pos 25 global_rate ltac:(lra) ltac:(lra)) as Hag.
  set (ar := annuity 25 r) in *. set (ag := annuity 25 global_rate) in *.
  split.
  - intros Hlt.
    assert (ag < ar) by (apply annuity_incr; lra).
    assert (1 < ar / ag).
    { apply (Rmult_lt_reg_r ag); [done|].
      replace (ar / ag * ag) with ar by (field; lra). lra. }
    nra.
  - intros Hlt.
    assert (ar < ag) by (apply annuity_incr; lra).
    assert (ar / ag < 1).
    { apply (Rmult_lt_reg_r ag); [done|].
      replace (ar / ag * ag) with ar by (field; lra). lra. }
    assert (0 < ar / ag) by (apply Rdiv_lt_0_compat; lra).
    split; nra.
Qed.

Lemma adjustment_direction_witness :
  exists n l component' x',
    _apply_to_component_improved "generators" sample_rates 0.07
      sample_generators = (Ok n, component', l)
    /\ num_at component' "capital_cost" 0 = Some x'
    /\ 100 < x'.
Proof.
  destruct (adjustment_direction "generators" sample_rates 0.07
              sample_generators sample_generators_ok ltac:(lra))
    as (n & l & component' & cs & Hrun & Hcs & Hrows).
  { unfold sample_rates. intros c r [_ <-]%lookup_singleton_Some. lra. }
  rewrite sample_derived in Hcs. injection Hcs as <-.
  destruct (Hrows 0%nat (SStr "DE") 0.1 100 eq_refl) as (x' & Hx' & Hup & _).
  { unfold rate_of, sample_rates. by rewrite lookup_singleton_eq. }
  { apply sample_far. }
  { unfold num_at, sample_generators. cbn [df_columns].
    rewrite lookup_insert_ne by done. by rewrite lookup_singleton_eq. }
  { lra. }
  exists n, l, component', x'. split; [exact Hrun|]. split; [exact Hx'|].
  apply Hup. lra.
Defined.

Lemma derived_countries_insert_cost (idx : list string)
    (cols : gmap string column) (col : column) :
  derived_countries (mkDataFrame idx (<["capital_cost" := col]> cols))
  = derived_countries (mkDataFrame idx cols).
Proof.
  unfold derived_countries. cbn [df_columns df_index].
  by rewrite !lookup_insert_ne.
Qed.

Lemma adjusted_component_ok (country_rates : gmap string R) (global_rate : R)
    (component : DataFrame string) :
  component_ok component ->
  component_ok (adjusted_component country_rates global_rate component)
  /\ derived_countries (adjusted_component country_rates global_rate component)
     = derived_countries component
  /\ df_index (adjusted_component country_rates global_rate component)
     = df_index component.
Proof.
  intros Hok. destruct (component_ok_derived component Hok) as (cs & Hcs & Hlen).
  pose proof Hok as (Hnd & Hwf & Hbus & Hcap).
  unfold adjusted_component. rewrite Hcs.
  destruct (df_columns component !! "capital_cost") as [[xs|xs]|] eqn:Ec;
    [|by destruct (Hcap xs)|done].
  clear Hok.
  destruct component as [idx cols]. cbn [df_index df_columns] in *.
  split; [|split; [by rewrite derived_countries_insert_cost|done]].
  split; [done|]. split; [|split].
  - intros name c. unfold df_len. cbn [df_index df_columns].
    intros [[_ <-]|[_ Hc]]%lookup_insert_Some; [|by apply (Hwf name)].
    pose proof (Hwf _ _ Ec) as Hx. unfold df_len in *. simpl in *.
    rewrite length_zip_with. lia.
  - intros ys. cbn [df_columns]. rewrite lookup_insert_ne by done. apply Hbus.
  - intros ys. cbn [df_columns]. by rewrite lookup_insert_eq.
Qed.

(** X7. The adjustment is not a correction towards a target: a second call
    on the adjusted table succeeds like the first, reports the same count,
    and multiplies every adjusted row by its factor once more. *)
Theorem adjustment_compounds (component_name : string)
    (country_rates : gmap string R) (global_rate : R)
    (component : DataFrame string)
    (Hok : component_ok component)
    (Hrates : rates_ok country_rates global_rate) :
  exists n l1 l2 component1 component2 cs,
    _apply_to_component_improved component_name country_rates global_rate
      component = (Ok n, component1, l1)
    /\ _apply_to_component_improved component_name country_rates global_rate
         component1 = (Ok n, component2, l2)
    /\ derived_countries component = Some cs
    /\ forall i c x,
         cs !! i = Some c ->
         num_at component "capital_cost" i = Some x ->
         num_at component2 "capital_cost" i
         = Some (match adjustment country_rates global_rate c with
                 | Some (_, factor) => x * factor * factor
                 | None => x
                 end).
Proof.
  destruct (component_ok_derived component Hok) as (cs & Hcs & Hlen).
  destruct (adjusted_component_ok country_rates global_rate component Hok)
    as (Hok1 & Hd1 & Hi1).
  set (component1 := adjusted_component country_rates global_rate component)
    in *.
  eexists _, _, _, component1, _, cs.
  split; [apply (apply_to_component_run _ _ _ _ Hok Hrates)|].
  split.
  - rewrite (apply_to_component_run _ _ _ _ Hok1 Hrates). f_equal. f_equal.
    f_equal. unfold adjusted_count. rewrite Hd1, Hi1, Hcs.
    unfold component1, adjusted_component. rewrite Hcs.
    destruct (df_columns component !! "capital_cost") as [[xs|xs]|] eqn:Ec;
      rewrite ?Ec; try done.
    cbn [df_columns]. by rewrite lookup_insert_eq.
  - split; [exact Hcs|]. intros i c x Hc Hx.
    pose proof (adjusted_component_num_at country_rates global_rate component
                  cs i c x Hcs Hc Hx) as Hx1.
    fold component1 in Hx1. rewrite Hcs in Hd1.
    rewrite (adjusted_component_num_at country_rates global_rate component1
               cs i c _ Hd1 Hc Hx1).
    unfold adjusted_cost.
    by destruct (adjustment country_rates global_rate c) as [[r f]|].
Qed.

Lemma adjustment_compounds_witness :
  exists n l1 l2 component1 component2,
    _apply_to_component_improved "generators" sample_rates 0.07
      sample_generators = (Ok n, component1, l1)
    /\ _apply_to_component_improved "generators" sample_rates 0.07
         component1 = (Ok n, component2, l2)
    /\ num_at component2 "capital_cost" 0
       = Some (100 * (annuity 25 0.1 / annuity 25 0.07)
                   * (annuity 25 0.1 / annuity 25 0.07))
    /\ num_at component2 "capital_cost" 1 = Some 80.
Proof.
  destruct (adjustment_compounds "generators" sample_rates 0.07
              sample_generators sample_generators_ok sample_rates_ok)
    as (n & l1 & l2 & c1 & c2 & cs & Hrun1 & Hrun2 & Hcs & Hrows).
  rewrite sample_derived in Hcs. injection Hcs as <-.
  exists n, l1, l2, c1, c2. split; [exact Hrun1|]. split; [exact Hrun2|].
  split.
  - rewrite (Hrows 0%nat (SStr "DE") 100 eq_refl).
    + by rewrite sample_adjustment_DE.
    + unfold num_at, sample_generators. cbn [df_columns].
      rewrite lookup_insert_ne by done. by rewrite lookup_singleton_eq.
  - rewrite (Hrows 1%nat (SStr "FR") 80 eq_refl).
    + by rewrite sample_adjustment_FR.
    + unfold num_at, sample_generators. cbn [df_columns].
      rewrite lookup_insert_ne by done. by rewrite lookup_singleton_eq.
Defined.

(** X8. The network call does not share the resolver's last fallback: when
    the configuration has no [social_discountrate] it raises [KeyError]
    before it looks at the country rates or at the network, although the
    resolver answers 0.07 for every country without a rate of its own
    under the same configuration. *)
Theorem missing_global_rate (cfg : costs_config) (network : Network)
    (Hmissing : social_discountrate cfg = None) :
  apply_country_discount_rates_to_network cfg network
    = (Raise KeyError, network, [InfoApplying])
  /\ forall c,
       default ∅ (country_specific_discountrate cfg) !! c = None ->
       get_country_discount_rate c cfg network
         = (Ok 0.07, network, [WarnDefaultRate c 0.07]).
Proof.
  split.
  - unfold apply_country_discount_rates_to_network. rewrite Hmissing.
    reflexivity.
  - intros c Hc. rewrite get_country_discount_rate_run. cbv zeta.
    by rewrite Hc, Hmissing.
Qed.

Lemma missing_global_rate_witness :
  apply_country_discount_rates_to_network
    (mkCostsConfig (Some sample_rates) None) sample_network
  = (Raise KeyError, sample_network, [InfoApplying]).
Proof.
  apply (missing_global_rate (mkCostsConfig (Some sample_rates) None)
           sample_network eq_refl).
Defined.

(** X9. The ways out of the component call before its loop: a table
    without rows or without columns gives 0; otherwise a numeric [bus]
    column raises [AttributeError], also when there is no [capital_cost]
    to adjust; otherwise a table without [capital_cost] gives 0.  In each
    case the table is left as it was and nothing is logged, whatever the
    rates and whatever the row labels. *)
Theorem adjustment_early_exits (component_name : string)
    (country_rates : gmap string R) (global_rate : R)
    (component : DataFrame string) :
  (df_empty component = true ->
   _apply_to_component_improved component_name country_rates global_rate
     component = (Ok 0%nat, component, []))
  /\ (df_empty component = false ->
      forall xs, df_columns component !! "bus" = Some (NumCol xs) ->
      _apply_to_component_improved component_name country_rates global_rate
        component = (Raise AttributeError, component, []))
  /\ (df_empty component = false ->
      (forall xs, df_columns component !! "bus" <> Some (NumCol xs)) ->
      df_columns component !! "capital_cost" = None ->
      _apply_to_component_improved component_name country_rates global_rate
        component = (Ok 0%nat, component, [])).
Proof.
  unfold _apply_to_component_improved. split; [|split].
  - intros He. munfold. by rewrite He.
  - intros He xs Hbus. munfold. by rewrite He, Hbus.
  - intros He Hbus Hcap. munfold. rewrite He. unfold has_column.
    rewrite Hcap.
    rewrite bool_decide_eq_false_2 by (intros [? ?]; done).
    destruct (df_columns component !! "bus") as [[xs|xs]|] eqn:Eb.
    + by destruct (Hbus xs).
    + reflexivity.
    + by destruct (df_columns component !! "country").
Qed.

Lemma adjustment_early_exits_witness :
  _apply_to_component_improved "stores" sample_rates 0.07
    (mkDataFrame ["DE0 battery"%string] {["bus"%string := NumCol [1]]})
  = (Raise AttributeError,
     mkDataFrame ["DE0 battery"%string] {["bus"%string := NumCol [1]]}, []).
Proof.
  destruct (adjustment_early_exits "stores" sample_rates 0.07
              (mkDataFrame ["DE0 battery"%string]
                 {["bus"%string := NumCol [1]]})) as (_ & Hbus & _).
  apply (Hbus eq_refl [1]). cbn [df_columns]. by rewrite lookup_singleton_eq.
Defined.

(** *** Row labels that are not unique *)

Lemma filter_zip_count (idx : string) (ls : list string) (cs : list scalar) :
  length cs = length ls ->
  length (filter (fun lv => lv.1 = idx) (zip ls cs))
  = length (filter (fun l => l = idx) ls).
Proof.
  revert cs. induction ls as [|l ls IH]; intros [|c cs] Hlen; try done.
  injection Hlen as Hlen.
  change (zip (l :: ls) (c :: cs)) with ((l, c) :: zip ls cs).
  rewrite !filter_cons. cbn [fst].
  destruct (decide (l = idx)); simpl; by rewrite IH.
Qed.

Lemma count_elem_of (idx : string) (ls : list string) :
  idx ∈ ls -> (1 <= length (filter (fun l => l = idx) ls))%nat.
Proof.
  intros Hin.
  assert (Hf : idx ∈ filter (fun l => l = idx) ls)
    by (by apply list_elem_of_filter).
  destruct (filter (fun l => l = idx) ls); [by apply elem_of_nil in Hf|].
  simpl. lia.
Qed.

Lemma has_duplicate_count (labels : list string) :
  has_duplicate labels ->
  exists l, l ∈ labels
            /\ (2 <= length (filter (fun x => x = l) labels))%nat.
Proof.
  intros (i & j & l & Hne & Hi & Hj).
  assert (Hwlog : forall i j, (i < j)%nat -> labels !! i = Some l ->
            labels !! j = Some l ->
            (2 <= length (filter (fun x => x = l) labels))%nat).
  { clear. intros i j Hlt Hi Hj.
    rewrite <- (take_drop_middle labels i l Hi).
    rewrite filter_app, filter_cons_True by done.
    rewrite length_app. simpl.
    assert (l ∈ drop (S i) labels).
    { apply list_elem_of_lookup. exists (j - S i)%nat.
      rewrite lookup_drop. rewrite <- Hj. f_equal. lia. }
    pose proof (count_elem_of l _ H). lia. }
  exists l. split; [by apply list_elem_of_lookup_2 in Hi|].
  destruct (decide (i < j)%nat); [by apply (Hwlog i j)|].
  apply (Hwlog j i); [lia|done|done].
Qed.

Section DuplicateLabels.

Variable country_rates : gmap string R.
Variable global_rate : R.
Hypothesis Hrates : rates_ok country_rates global_rate.
Variable labels : list string.
Variable values : column.
Hypothesis Hvalues : col_length values = length labels.
Variable cols0 : gmap string column.

Lemma col_scalars_length : length (col_scalars values) = length labels.
Proof. rewrite <- Hvalues. destruct values; simpl; by rewrite length_fmap. Qed.

Lemma adjust_row_duplicate (changed : list changed_entry) (i : nat)
    (idx : string) (st : DataFrame string) :
  (2 <= length (filter (fun l => l = idx) labels))%nat ->
  adjust_row (CSeries labels values) country_rates global_rate changed
    (i, idx) st
  = (Raise TypeError, st, []).
Proof.
  intros Hcount. unfold adjust_row, row_country, series_loc.
  pose proof (filter_zip_count idx labels (col_scalars values)
                col_scalars_length) as Hlen.
  destruct (filter (fun lv => lv.1 = idx) (zip labels (col_scalars values)))
    as [|[l1 v1] [|[l2 v2] rest]]; simpl in Hlen; [lia|lia|].
  reflexivity.
Qed.

Lemma adjust_row_unique (changed : list changed_entry) (i : nat)
    (idx : string) (cur : list R) :
  length (filter (fun l => l = idx) labels) = 1%nat ->
  length cur = length labels ->
  exists changed' cur',
    adjust_row (CSeries labels values) country_rates global_rate changed
      (i, idx)
      (mkDataFrame labels (<["capital_cost" := NumCol cur]> cols0))
    = (Ok changed',
       mkDataFrame labels (<["capital_cost" := NumCol cur']> cols0), [])
    /\ length cur' = length labels.
Proof.
  intros Hcount Hcur. unfold adjust_row, row_country, series_loc.
  pose proof (filter_zip_count idx labels (col_scalars values)
                col_scalars_length) as Hlen.
  destruct (filter (fun lv => lv.1 = idx) (zip labels (col_scalars values)))
    as [|[l1 v1] [|[l2 v2] rest]]; simpl in Hlen; [lia| |lia].
  cbn [fmap list_fmap snd]. munfold. cbn [dict_contains].
  destruct v1 as [v|s]; cbn [dict_contains].
  { eexists _, cur. split; [reflexivity|done]. }
  unfold dict_getitem_at, dict_getitem.
  destruct (country_rates !! s) as [r|] eqn:Er.
  2: { rewrite bool_decide_eq_false_2 by (intros [? ?]; done).
       eexists _, cur. split; [reflexivity|done]. }
  rewrite bool_decide_eq_true_2 by eauto.
  destruct (decide (Rabs (r - global_rate) > 0.001)) as [Hfar|Hnear].
  2: { eexists _, cur. split; [reflexivity|done]. }
  destruct Hrates as [Hg Hr]. specialize (Hr _ _ Er).
  rewrite !calculate_annuity_simple_annuity by lra.
  unfold float_div. rewrite decide_False by (apply annuity_ne_0; lra).
  unfold loc_imul. munfold. cbn [df_columns df_index].
  rewrite lookup_insert_eq. cbn [df_columns df_index].
  rewrite insert_insert_eq.
  eexists _, _. split; [reflexivity|].
  rewrite length_zip_with, Hcur. apply Nat.min_id.
Qed.

Lemma duplicate_loop (rows : list (nat * string)) (cur : list R)
    (changed : list changed_entry) :
  length cur = length labels ->
  (forall l, l ∈ rows.*2 -> l ∈ labels) ->
  (exists l, l ∈ rows.*2
             /\ (2 <= length (filter (fun x => x = l) labels))%nat) ->
  exists st',
    for_each (adjust_row (CSeries labels values) country_rates global_rate)
      changed rows
      (mkDataFrame labels (<["capital_cost" := NumCol cur]> cols0))
    = (Raise TypeError, st', []).
Proof.
  revert cur changed.
  induction rows as [|[i idx] rows IH]; intros cur changed Hcur Hin Hdup.
  - destruct Hdup as (l & Hl & _). by apply elem_of_nil in Hl.
  - cbn [for_each]. unfold mbind at 1. unfold M_bind at 1.
    destruct (decide (2 <= length (filter (fun l => l = idx) labels))%nat)
      as [Htwo|Hone].
    + rewrite adjust_row_duplicate by done. eauto.
    + pose proof (count_elem_of idx labels (Hin idx ltac:(left))) as Hge.
      destruct (adjust_row_unique changed i idx cur ltac:(lia) Hcur)
        as (changed' & cur' & -> & Hcur').
      destruct (IH cur' changed' Hcur') as (st' & ->).
      * intros l Hl. apply Hin. by right.
      * destruct Hdup as (l & Hl & Hcount). exists l. split; [|done].
        rewrite fmap_cons in Hl. apply elem_of_cons in Hl as [->|Hl]; [|done].
        simpl in Hcount. lia.
      * eauto.
Qed.

End DuplicateLabels.

(** X10. When the countries come from a [bus] or a [country] column and
    some row label occurs twice, the component call raises [TypeError]
    (the lookup by label yields a sub-series, which the membership test
    cannot hash); rows before the first doubled label may already have
    been adjusted, and nothing but [capital_cost] has changed. *)
Theorem duplicate_labels_raise (component_name : string)
    (country_rates : gmap string R) (global_rate : R)
    (component : DataFrame string) (values : column) (costs : list R)
    (Hwf : df_wf component)
    (Hrates : rates_ok country_rates global_rate)
    (Hdup : has_duplicate (df_index component))
    (Hcountries :
       (exists bus, df_columns component !! "bus" = Some (StrCol bus)
                    /\ values = StrCol (String.substring 0 2 <$> bus))
       \/ (df_columns component !! "bus" = None
           /\ df_columns component !! "country" = Some values))
    (Hcost : df_columns component !! "capital_cost" = Some (NumCol costs)) :
  let run :=
    _apply_to_component_improved component_name country_rates global_rate
      component in
  run.1.1 = Raise TypeError
  /\ run.2 = []
  /\ only_capital_cost component run.1.2.
Proof.
  intros run.
  assert (Hrun : exists st', run = (Raise TypeError, st', [])).
  { unfold run, _apply_to_component_improved.
    unfold mbind at 1. unfold M_bind at 1. unfold get_state at 1.
    destruct (has_duplicate_count _ Hdup) as (l & Hl & Hcount).
    assert (Hne : df_empty component = false).
    { unfold df_empty. destruct (df_index component) as [|i idx] eqn:Ei;
        [by apply elem_of_nil in Hl|].
      apply bool_decide_eq_false_2. intros He.
      assert (Hin : "capital_cost"%string ∈ dom (df_columns component))
        by (apply elem_of_dom; eauto).
      rewrite He in Hin. by apply not_elem_of_empty in Hin. }
    rewrite Hne.
    assert (Hc : (match df_columns component !! "bus" with
                  | Some bus =>
                      values ← str_slice2 bus;
                      mret (CSeries (df_index component) values)
                  | None =>
                      match df_columns component !! "country" with
                      | Some country =>
                          Ok (CSeries (df_index component) country)
                      | None =>
                          Ok (CIndex (String.substring 0 2
                                        <$> df_index component))
                      end
                  end) = Ok (CSeries (df_index component) values)
                 /\ col_length values = length (df_index component)).
    { destruct Hcountries as [(bus & Hb & ->)|[Hb Hv]]; rewrite Hb.
      - split; [reflexivity|]. simpl. rewrite length_fmap. apply (Hwf _ _ Hb).
      - rewrite Hv. split; [reflexivity|apply (Hwf _ _ Hv)]. }
    destruct Hc as [-> Hlen].
    munfold. unfold has_column. rewrite Hcost.
    rewrite bool_decide_eq_true_2 by eauto. cbn [negb].
    pose proof (Hwf _ _ Hcost) as Hcl. unfold df_len in Hcl. simpl in Hcl.
    destruct component as [idx cols]. cbn [df_index df_columns] in *.
    assert (Hsnd : (enumerate idx).*2 = idx).
    { unfold enumerate. apply snd_zip. rewrite length_seq. lia. }
    destruct (duplicate_loop country_rates global_rate Hrates idx values
                Hlen cols (enumerate idx) costs [] Hcl) as (st' & Hloop).
    { intros l'. by rewrite Hsnd. }
    { exists l. by rewrite Hsnd. }
    rewrite insert_id in Hloop by done.
    rewrite Hloop. eauto. }
  destruct Hrun as (st' & Hrun). rewrite Hrun. cbn [fst snd].
  split; [done|]. split; [done|].
  pose proof (apply_to_component_frame component_name country_rates
                global_rate component) as Hf.
  fold run in Hf. by rewrite Hrun in Hf.
Qed.

Lemma duplicate_labels_raise_witness :
  let component :=
    mkDataFrame ["DE0 onwind"; "DE0 onwind"]%string
      (<["bus"%string := StrCol ["DE0"; "DE0"]%string]>
         {["capital_cost"%string := NumCol [100; 80]]}) in
  (_apply_to_component_improved "generators" sample_rates 0.07
     component).1.1 = Raise TypeError.
Proof.
  intros component.
  apply (duplicate_labels_raise "generators" sample_rates 0.07 component
           (StrCol ["DE"; "DE"]%string) [100; 80]).
  - intros name c. unfold component, df_len. cbn [df_index df_columns].
    intros [[_ <-]|[_ [_ <-]%lookup_singleton_Some]]%lookup_insert_Some; done.
  - apply sample_rates_ok.
  - exists 0%nat, 1%nat, "DE0 onwind"%string. done.
  - left. exists ["DE0"; "DE0"]%string. unfold component. cbn [df_columns].
    by rewrite lookup_insert_eq.
  - unfold component. cbn [df_columns].
    rewrite lookup_insert_ne by done. by rewrite lookup_singleton_eq.
Defined.

(** ** More on the district-heating projection *)

Lemma node_urban_fraction_nonneg (r : pop_row) :
  0 <= urban r -> 0 < urban r + rural r -> 0 <= node_urban_fraction r.
Proof.
  intros Hu Hpos. unfold node_urban_fraction.
  apply Rmult_le_pos; [done|]. left. by apply Rinv_0_lt_compat.
Qed.

(** X11. The two output columns are consistent: for a node with a
    population, a ceiling of at most 1 and a progress of at most 1, the
    projected share never exceeds the urban fraction written next to it,
    and that urban fraction is never below the node's own urban share of
    its population. *)
Theorem projected_share_within_urban_fraction {Schedule St : Type}
    (get : Schedule -> Z -> R) (pop_layout : list pop_row)
    (historical : gmap string R) (potential : potential)
    (progress_config : Schedule) (investment_year : Z) (st : St)
    (Hcov : potential_covers pop_layout potential)
    (Hprogress : get progress_config investment_year <= 1) :
  exists l df,
    build_district_heat_share get pop_layout historical potential
      progress_config investment_year st = (Ok df, st, l)
    /\ forall i r,
         pop_layout !! i = Some r ->
         0 <= urban r -> 0 < urban r + rural r ->
         node_ceiling potential r <= 1 ->
         exists share urban_final,
           num_at df "district fraction of node" i = Some share
           /\ num_at df "urban fraction" i = Some urban_final
           /\ urban r / (urban r + rural r) <= urban_final
           /\ share <= urban_final.
Proof.
  destruct (build_run_rows get pop_layout historical potential progress_config
              investment_year st Hcov) as (l & df & Hrun & _ & Hrows).
  exists l, df. split; [exact Hrun|]. intros i r Hr Hu Hpos Hceil.
  destruct (Hrows i r Hr) as (_ & Hd & Huf).
  eexists _, _. split; [exact Hd|]. split; [exact Huf|].
  pose proof (node_urban_fraction_nonneg r Hu Hpos) as Hnn.
  pose proof (node_projected_bound pop_layout historical potential _ r
                Hprogress) as Hb.
  unfold node_urban_final in *. fold (node_urban_fraction r).
  set (u := node_urban_fraction r) in *.
  set (d := node_dist_fraction pop_layout historical r) in *.
  set (c := node_ceiling potential r) in *.
  split; [apply Rmax_l|].
  assert (Hud : u <= Rmax u d) by apply Rmax_l.
  assert (Hdd : d <= Rmax u d) by apply Rmax_r.
  assert (Rmax u d * c <= Rmax u d) by nra.
  eapply Rle_trans; [exact Hb|]. by apply Rmax_lub.
Qed.

Lemma projected_share_within_urban_fraction_witness :
  exists l df share urban_final,
    build_district_heat_share (fun (_ : unit) (_ : Z) => 1) sample_pop_layout
      sample_historical (PotentialScalar 0.5) tt 2050%Z tt = (Ok df, tt, l)
    /\ num_at df "district fraction of node" 1 = Some share
    /\ num_at df "urban fraction" 1 = Some urban_final
    /\ share <= urban_final.
Proof.
  destruct (projected_share_within_urban_fraction
              (fun (_ : unit) (_ : Z) => 1) sample_pop_layout
              sample_historical (PotentialScalar 0.5) tt 2050%Z tt I
              ltac:(lra)) as (l & df & Hrun & Hrows).
  destruct (Hrows 1%nat (mkPopRow "DE1" "DE" 40 60 0.5) eq_refl)
    as (share & urban_final & Hs & Hu & _ & Hle).
  { simpl. lra. }
  { simpl. lra. }
  { simpl. lra. }
  exists l, df, share, urban_final. done.
Defined.

(** X12. Between no progress and full progress: with a progress of 0 the
    projected share of every node is today's allocated share
    [dist_fraction_node]; with a progress of 1 it is the larger of that
    share and final urban fraction times ceiling; and with any progress
    that is not negative it is never below today's share. *)
Theorem projection_endpoints {Schedule St : Type}
    (get : Schedule -> Z -> R) (pop_layout : list pop_row)
    (historical : gmap string R) (potential : potential)
    (progress_config : Schedule) (investment_year : Z) (st : St)
    (Hcov : potential_covers pop_layout potential) :
  exists l df,
    build_district_heat_share get pop_layout historical potential
      progress_config investment_year st = (Ok df, st, l)
    /\ forall i r,
         pop_layout !! i = Some r ->
         exists share urban_final,
           num_at df "district fraction of node" i = Some share
           /\ num_at df "urban fraction" i = Some urban_final
           /\ (get progress_config investment_year = 0 ->
               share = node_dist_fraction pop_layout historical r)
           /\ (get progress_config investment_year = 1 ->
               share = Rmax (node_dist_fraction pop_layout historical r)
                            (urban_final * node_ceiling potential r))
           /\ (0 <= get progress_config investment_year ->
               node_dist_fraction pop_layout historical r <= share).
Proof.
  destruct (build_run_rows get pop_layout historical potential progress_config
              investment_year st Hcov) as (l & df & Hrun & _ & Hrows).
  exists l, df. split; [exact Hrun|]. intros i r Hr.
  destruct (Hrows i r Hr) as (_ & Hd & Hu).
  eexists _, _. split; [exact Hd|]. split; [exact Hu|].
  unfold node_projected, node_diff.
  set (d := node_dist_fraction pop_layout historical r).
  set (uc := node_urban_final pop_layout historical r
             * node_ceiling potential r).
  split; [|split].
  - intros ->. lra.
  - intros ->. unfold Rmax.
    destruct (Rle_dec 0 (uc - d)), (Rle_dec d uc); lra.
  - intros Hp. assert (0 <= Rmax 0 (uc - d)) by apply Rmax_l. nra.
Qed.

Lemma projection_endpoints_witness :
  exists l df,
    build_district_heat_share (fun (p : R) (_ : Z) => p) sample_pop_layout
      sample_historical (PotentialScalar 0.5) 0 2050%Z tt = (Ok df, tt, l)
    /\ num_at df "district fraction of node" 0 = Some 0.48.
Proof.
  destruct (projection_endpoints (fun (p : R) (_ : Z) => p) sample_pop_layout
              sample_historical (PotentialScalar 0.5) 0 2050%Z tt I)
    as (l & df & Hrun & Hrows).
  exists l, df. split; [exact Hrun|].
  destruct (Hrows 0%nat (mkPopRow "DE0" "DE" 60 40 0.5) eq_refl)
    as (share & uf & Hs & _ & H0 & _).
  rewrite Hs, (H0 eq_refl). f_equal. apply sample_node0_dist.
Defined.

Lemma weighted_sum_of_allocation (pop_layout : list pop_row)
    (historical : gmap string R) (potential : potential) (c : string)
    (l : list pop_row) :
  (forall r, r ∈ l -> ct r = c -> fraction r <> 0) ->
  country_weighted_sum l c
    (node_projected pop_layout historical potential 0 <$> l)
  = default 0 (historical !! c)
    * (country_urban l c / country_urban pop_layout c).
Proof.
  unfold country_weighted_sum, country_urban.
  induction l as [|r l IH]; intros Hf.
  - simpl. unfold Rdiv. ring.
  - rewrite fmap_cons. cbn [zip_with foldr]. rewrite filter_cons.
    rewrite IH by (intros r' Hr'; apply Hf; by right).
    destruct (decide (ct r = c)) as [Hc|Hc].
    + rewrite fmap_cons. cbn [foldr].
      unfold node_projected, node_dist_fraction, node_share,
        node_urban_ct_fraction, country_urban.
      rewrite Hc. specialize (Hf r ltac:(left) Hc).
      unfold Rdiv.
      generalize (/ foldr Rplus 0
                      (urban <$> filter (fun r0 => ct r0 = c) pop_layout)).
      intros iU. field. exact Hf.
    + ring.
Qed.

(** X13. The allocation over the nodes keeps the country's share: with a
    progress of 0, for a country with urban population whose nodes all
    have a population fraction, the projected shares of its nodes weighted
    by their population fractions add up to the country's historical
    share. *)
Theorem allocation_preserves_country_share {Schedule St : Type}
    (get : Schedule -> Z -> R) (pop_layout : list pop_row)
    (historical : gmap string R) (potential : potential)
    (progress_config : Schedule) (investment_year : Z) (st : St) (c : string)
    (Hcov : potential_covers pop_layout potential)
    (Hprogress : get progress_config investment_year = 0)
    (Hurban : country_urban pop_layout c <> 0)
    (Hfraction : forall r, r ∈ pop_layout -> ct r = c -> fraction r <> 0) :
  exists l df xs,
    build_district_heat_share get pop_layout historical potential
      progress_config investment_year st = (Ok df, st, l)
    /\ df_columns df !! "district fraction of node" = Some (NumCol xs)
    /\ country_weighted_sum pop_layout c xs = default 0 (historical !! c).
Proof.
  destruct (build_run get pop_layout historical potential progress_config
              investment_year st Hcov) as (l & Hrun).
  cbv zeta in Hrun. rewrite Hprogress in Hrun.
  eexists _, _, _. split; [exact Hrun|]. cbn [df_columns]. split.
  - rewrite lookup_insert_ne by done. by rewrite lookup_insert_eq.
  - rewrite weighted_sum_of_allocation by done. field. done.
Qed.

Lemma allocation_preserves_country_share_witness :
  exists l df xs,
    build_district_heat_share (fun (p : R) (_ : Z) => p) sample_pop_layout
      sample_historical (PotentialScalar 0.5) 0 2050%Z tt = (Ok df, tt, l)
    /\ df_columns df !! "district fraction of node" = Some (NumCol xs)
    /\ country_weighted_sum sample_pop_layout "DE" xs = 0.4.
Proof.
  destruct (allocation_preserves_country_share (fun (p : R) (_ : Z) => p)
              sample_pop_layout sample_historical (PotentialScalar 0.5)
              0 2050%Z tt "DE" I eq_refl)
    as (l & df & xs & Hrun & Hcol & Hsum).
  - rewrite sample_country_urban. lra.
  - intros r Hr _. unfold sample_pop_layout in Hr.
    apply elem_of_cons in Hr as [->|Hr]; [simpl; lra|].
    apply list_elem_of_singleton in Hr as ->. simpl. lra.
  - exists l, df, xs. split; [exact Hrun|]. split; [exact Hcol|].
    rewrite Hsum. unfold sample_historical.
    by rewrite lookup_singleton_eq.
Defined.

(** X14. A mapping potential that lists every country of the layout needs
    no [default]: the resolution succeeds without a warning, every node
    takes the entry of its country, and a [default] entry, present or
    not, changes nothing.  In particular an empty layout never raises. *)
Theorem covered_mapping_ignores_default {St : Type}
    (pop_layout : list pop_row) (d : gmap string R) (st : St)
    (Hall : forall r, r ∈ pop_layout -> is_Some (d !! ct r))
    (Hnames : forall r, r ∈ pop_layout -> ct r <> "default"%string) :
  exists cs,
    resolve_central_fraction pop_layout (PotentialDict d) st
      = (Ok (CFSeries cs), st, [])
    /\ (forall i r, pop_layout !! i = Some r -> cs !! i = d !! ct r)
    /\ (forall v,
          resolve_central_fraction pop_layout
            (PotentialDict (<["default"%string := v]> d)) st
          = (Ok (CFSeries cs), st, []))
    /\ resolve_central_fraction pop_layout
         (PotentialDict (delete "default"%string d)) st
       = (Ok (CFSeries cs), st, []).
Proof.
  exists (node_ceiling (PotentialDict d) <$> pop_layout).
  split; [by apply resolve_all_covered|]. split; [|split].
  - intros i r Hr. rewrite list_lookup_fmap, Hr. simpl.
    destruct (Hall r) as [x ->]; [|done].
    by apply list_elem_of_lookup_2 in Hr.
  - intros v. rewrite resolve_all_covered.
    + do 4 f_equal. apply Forall_fmap_ext_1, Forall_forall. intros r Hr.
      simpl. rewrite lookup_insert_ne by (symmetry; by apply Hnames).
      by destruct (Hall r Hr) as [x ->].
    + intros r Hr. rewrite lookup_insert_ne by (symmetry; by apply Hnames).
      by apply Hall.
  - rewrite resolve_all_covered.
    + do 4 f_equal. apply Forall_fmap_ext_1, Forall_forall. intros r Hr.
      simpl. rewrite lookup_delete_ne by (symmetry; by apply Hnames).
      by destruct (Hall r Hr) as [x ->].
    + intros r Hr. rewrite lookup_delete_ne by (symmetry; by apply Hnames).
      by apply Hall.
Qed.

Lemma covered_mapping_ignores_default_witness :
  exists cs,
    resolve_central_fraction sample_pop_layout
      (PotentialDict {["DE"%string := 0.5]}) tt
    = (Ok (CFSeries cs), tt, [])
    /\ cs !! 0%nat = Some 0.5.
Proof.
  destruct (covered_mapping_ignores_default sample_pop_layout
              {["DE"%string := 0.5]} tt) as (cs & Hres & Hcs & _).
  - intros r Hr. unfold sample_pop_layout in Hr.
    apply elem_of_cons in Hr as [->|Hr]; [simpl; by rewrite lookup_singleton_eq|].
    apply list_elem_of_singleton in Hr as ->. simpl.
    by rewrite lookup_singleton_eq.
  - intros r Hr. unfold sample_pop_layout in Hr.
    apply elem_of_cons in Hr as [->|Hr]; [done|].
    by apply list_elem_of_singleton in Hr as ->.
  - exists cs. split; [exact Hres|].
    rewrite (Hcs 0%nat (mkPopRow "DE0" "DE" 60 40 0.5) eq_refl). simpl.
    by rewrite lookup_singleton_eq.
Defined.

(** ** More on the network call *)

(** X15. What the component call writes to the log.  Let the adjusted
    rows be the rows, in the order of the table, whose derived country has
    a rate further than 0.001 from the global rate, each with its label,
    country, rate and factor.  A table without [capital_cost] logs
    nothing.  Otherwise the call returns the number of adjusted rows and
    logs nothing when there is none, and else one summary record with that
    number, then the sample record of each of the first three adjusted
    rows, then one more record with the number of the remaining rows
    exactly when more than three rows were adjusted. *)
Theorem adjustment_log_shape (component_name : string)
    (country_rates : gmap string R) (global_rate : R)
    (component : DataFrame string)
    (Hok : component_ok component)
    (Hrates : rates_ok country_rates global_rate) :
  exists n component' l cs,
    _apply_to_component_improved component_name country_rates global_rate
      component = (Ok n, component', l)
    /\ derived_countries component = Some cs
    /\ (df_columns component !! "capital_cost" = None ->
        n = 0%nat /\ l = [])
    /\ (is_Some (df_columns component !! "capital_cost") ->
        let adjusted_rows : list changed_entry :=
          omap (fun row : string * scalar =>
                  match rate_of country_rates row.2 with
                  | Some r =>
                      if decide (Rabs (r - global_rate) > 0.001)
                      then Some (row.1, LScalar row.2, r,
                                 annuity 25 r / annuity 25 global_rate)
                      else None
                  | None => None
                  end)
               (zip (df_index component) cs) in
        n = length adjusted_rows
        /\ l = match adjusted_rows with
               | [] => []
               | _ :: _ =>
                   InfoAppliedKind n component_name
                   :: ((fun e : changed_entry =>
                          DebugSample e.1.1.1 e.1.1.2 e.1.2 e.2)
                         <$> take 3 adjusted_rows)
                   ++ (if decide (3 < n)%nat then [DebugMore (n - 3)] else [])
               end).
Proof.
  destruct (component_ok_derived component Hok) as (cs & Hcs & _).
  eexists _, _, _, cs.
  split; [apply (apply_to_component_run _ _ _ _ Hok Hrates)|].
  split; [exact Hcs|].
  unfold adjusted_count, adjustment_log. rewrite Hcs.
  assert (Hch : changed_entries country_rates global_rate
                  (zip (df_index component) cs)
                = omap (fun row : string * scalar =>
                          match rate_of country_rates row.2 with
                          | Some r =>
                              if decide (Rabs (r - global_rate) > 0.001)
                              then Some (row.1, LScalar row.2, r,
                                         annuity 25 r / annuity 25 global_rate)
                              else None
                          | None => None
                          end)
                       (zip (df_index component) cs)).
  { unfold changed_entries. apply list_omap_ext, Forall_Forall2_diag.
    apply Forall_forall. intros [id c] _. rewrite adjustment_rate_of.
    cbn [fst snd]. destruct (rate_of country_rates c) as [r|]; [|done].
    by destruct (decide (Rabs (r - global_rate) > 0.001)). }
  destruct Hok as (_ & _ & _ & Hcap).
  destruct (df_columns component !! "capital_cost") as [[xs|xs]|] eqn:Ec.
  - split; [done|]. intros _. cbv zeta. rewrite <- Hch.
    split; [done|]. unfold log_changed.
    destruct (changed_entries country_rates global_rate
                (zip (df_index component) cs)) as [|e changed] eqn:E; [done|].
    f_equal. f_equal. apply Forall_fmap_ext_1, Forall_forall.
    by intros [[[id c] r] f] _.
  - by destruct (Hcap xs).
  - split; [done|]. by intros [? ?].
Qed.

Lemma sample_links_ok : component_ok sample_links.
Proof.
  unfold component_ok, sample_links. cbn [df_index df_columns].
  split; [compute_done|]. split; [|split].
  - intros name c. unfold df_len. cbn [df_index df_columns].
    by intros [_ <-]%lookup_singleton_Some.
  - intros xs. by rewrite lookup_singleton_ne.
  - intros xs. by rewrite lookup_singleton_eq.
Defined.

Lemma adjustment_log_shape_witness :
  exists component',
    _apply_to_component_improved "links" sample_rates 0.07 sample_links
    = (Ok 4%nat, component',
       [InfoAppliedKind 4 "links";
        DebugSample "DE0 a" (LScalar (SStr "DE")) 0.1
          (annuity 25 0.1 / annuity 25 0.07);
        DebugSample "DE1 b" (LScalar (SStr "DE")) 0.1
          (annuity 25 0.1 / annuity 25 0.07);
        DebugSample "DE2 d" (LScalar (SStr "DE")) 0.1
          (annuity 25 0.1 / annuity 25 0.07);
        DebugMore 1]).
Proof.
  destruct (adjustment_log_shape "links" sample_rates 0.07
              sample_links sample_links_ok sample_rates_ok)
    as (n & component' & l & cs & Hrun & Hcs & _ & Hlog).
  unfold derived_countries, sample_links in Hcs. cbn [df_columns] in Hcs.
  rewrite !lookup_singleton_ne in Hcs by done.
  cbn [df_index fmap list_fmap String.substring] in Hcs.
  injection Hcs as <-.
  destruct Hlog as [Hn Hl].
  { unfold sample_links. cbn [df_columns].
    rewrite lookup_singleton_eq. eauto. }
  exists component'. rewrite Hrun.
  unfold sample_links in Hn, Hl.
  cbn [df_index zip_with omap list_omap fst snd rate_of] in Hn, Hl.
  unfold sample_rates in Hn, Hl.
  rewrite !lookup_singleton_eq in Hn, Hl.
  rewrite lookup_singleton_ne in Hn, Hl by done.
  rewrite !decide_True in Hn, Hl by apply sample_far.
  cbn [length] in Hn. subst n.
  rewrite decide_True in Hl by lia.
  subst l. reflexivity.
Defined.

(** X16. The network call treats each component kind on its own: after a
    successful call the table of every kind is the table that a direct
    call of the component function on the original table leaves, a kind
    the network lacks is still lacking, and the count of each kind is the
    value that direct call returns. *)
Theorem network_call_by_kind (cfg : costs_config) (g : R) (network : Network)
    (Hg : social_discountrate cfg = Some g)
    (Hne : default ∅ (country_specific_discountrate cfg) <> ∅)
    (Hrates : rates_ok (default ∅ (country_specific_discountrate cfg)) g)
    (Hok : forall k df, get_component k network = Some df -> component_ok df) :
  let country_rates := default ∅ (country_specific_discountrate cfg) in
  exists network' l,
    apply_country_discount_rates_to_network cfg network
      = (Ok PyNone, network', l)
    /\ forall k,
         match get_component k network with
         | Some df =>
             exists n l',
               _apply_to_component_improved (kind_name k) country_rates g df
                 = (Ok n, default df (get_component k network'), l')
               /\ is_Some (get_component k network')
               /\ n = kind_count country_rates g network k
         | None => get_component k network' = None
         end.
Proof.
  intros country_rates.
  destruct (apply_to_network_run cfg g network Hg Hne Hrates Hok)
    as (network' & l & Hrun & Hget).
  eexists network', _. split; [exact Hrun|]. intros k.
  rewrite Hget. destruct (get_component k network) as [df|] eqn:Edf; [|done].
  eexists _, _. cbn [fmap option_fmap option_map default].
  split; [apply (apply_to_component_run _ _ _ _ (Hok k df Edf) Hrates)|].
  split; [eauto|]. unfold kind_count. by rewrite Edf.
Qed.

Lemma network_call_by_kind_witness :
  exists network' l,
    apply_country_discount_rates_to_network sample_config sample_network
      = (Ok PyNone, network', l)
    /\ get_component StorageUnits network' = None
    /\ exists l',
         _apply_to_component_improved "generators" sample_rates 0.07
           sample_generators
         = (Ok 1%nat,
            default sample_generators (get_component Generators network'), l').
Proof.
  destruct (network_call_by_kind sample_config 0.07 sample_network eq_refl
              sample_rates_nonempty sample_rates_ok sample_network_ok)
    as (network' & l & Hrun & Hkinds).
  exists network', l. split; [exact Hrun|].
  split; [exact (Hkinds StorageUnits)|].
  destruct (Hkinds Generators) as (n & l' & Hk & _ & Hn).
  exists l'. rewrite Hn in Hk.
  change (default ∅ (country_specific_discountrate sample_config))
    with sample_rates in Hk.
  unfold kind_count in Hk. cbn [get_component sample_network generators] in Hk.
  rewrite sample_count in Hk. exact Hk.
Defined.

(** X17. A node whose country the historical table lacks starts from a
    share of 0: where the country has urban population and the node a
    population fraction, its original share is 0, its urban fraction is
    left as it is, and with a ceiling that is not negative its projected
    share is urban fraction times ceiling times progress. *)
Theorem projection_without_history {Schedule St : Type}
    (get : Schedule -> Z -> R) (pop_layout : list pop_row)
    (historical : gmap string R) (potential : potential)
    (progress_config : Schedule) (investment_year : Z) (st : St)
    (Hcov : potential_covers pop_layout potential) :
  exists l df,
    build_district_heat_share get pop_layout historical potential
      progress_config investment_year st = (Ok df, st, l)
    /\ forall i r,
         pop_layout !! i = Some r ->
         historical !! ct r = None ->
         country_urban pop_layout (ct r) <> 0 ->
         fraction r <> 0 ->
         0 <= urban r -> 0 < urban r + rural r ->
         0 <= node_ceiling potential r ->
         num_at df "original district heat share" i = Some 0
         /\ num_at df "urban fraction" i
            = Some (urban r / (urban r + rural r))
         /\ num_at df "district fraction of node" i
            = Some (urban r / (urban r + rural r) * node_ceiling potential r
                    * get progress_config investment_year).
Proof.
  destruct (build_run_rows get pop_layout historical potential progress_config
              investment_year st Hcov) as (l & df & Hrun & _ & Hrows).
  exists l, df. split; [exact Hrun|].
  intros i r Hr Hnone Hcu Hfr Hu Hpos Hc.
  destruct (Hrows i r Hr) as (Ho & Hd & Huf).
  pose proof (node_urban_fraction_nonneg r Hu Hpos) as Hnn.
  assert (Hd0 : node_dist_fraction pop_layout historical r = 0).
  { unfold node_dist_fraction, node_share. rewrite Hnone. cbn [default].
    unfold Rdiv. ring. }
  assert (Hf : node_urban_final pop_layout historical r
               = node_urban_fraction r).
  { unfold node_urban_final. rewrite Hd0. by apply Rmax_left. }
  split; [|split].
  - rewrite Ho. unfold node_share. by rewrite Hnone.
  - by rewrite Huf, Hf.
  - rewrite Hd. f_equal. unfold node_projected, node_diff.
    rewrite Hd0, Hf. fold (node_urban_fraction r).
    rewrite Rmax_right; [ring|].
    assert (0 <= node_urban_fraction r * node_ceiling potential r)
      by (by apply Rmult_le_pos).
    lra.
Qed.

Lemma projection_without_history_witness :
  exists l df,
    build_district_heat_share (fun (p : R) (_ : Z) => p) sample_pop_layout
      (∅ : gmap string R) (PotentialScalar 0.5) 1 2050%Z tt = (Ok df, tt, l)
    /\ num_at df "original district heat share" 0 = Some 0
    /\ num_at df "district fraction of node" 0
       = Some (60 / (60 + 40) * 0.5 * 1).
Proof.
  destruct (projection_without_history (fun (p : R) (_ : Z) => p)
              sample_pop_layout (∅ : gmap string R) (PotentialScalar 0.5)
              1 2050%Z tt I) as (l & df & Hrun & Hrows).
  exists l, df. split; [exact Hrun|].
  destruct (Hrows 0%nat (mkPopRow "DE0" "DE" 60 40 0.5) eq_refl)
    as (Ho & _ & Hd).
  { apply lookup_empty. }
  { cbn [ct]. rewrite sample_country_urban. lra. }
  { simpl. lra. }
  { simpl. lra. }
  { simpl. lra. }
  { simpl. lra. }
  split; [exact Ho|exact Hd].
Defined.
